(** * Khamsone portfolio: the page script [js/scripts.js]

    A shallow embedding of the handlers the script installs on
    [DOMContentLoaded], and the properties its specification states about
    them.  Every section of the script gets a module of its own; the DOM is a
    store of class lists indexed by element, timers are explicit in the
    states of the two animations. *)

From Stdlib Require Import ZArith Lia List Ascii String Bool.
From stdpp Require Import base tactics option list gmap strings.

#[local] Set Warnings "-clear-no-such-hyp".

(** ** JavaScript numbers

    A Number is an IEEE 754 binary64 value.  Every finite double is an
    integer multiple of the smallest subnormal [2^-1074], so a finite value
    is kept as that integer: [Fin u] stands for [u * 2^-1074].  The two
    zeros are identified ([ToString] prints both as ["0"], and no divisor
    in the script can be zero). *)
Module Number.
Local Open Scope Z_scope.

Inductive num : Type :=
| NaN
| NegInf
| Fin (u : Z)
| PosInf.

(** The value 1, and the first magnitude past the finite range (2^1024),
    both in units of [2^-1074]. *)
Definition one : Z := 2 ^ 1074.
Definition overflow : Z := 2 ^ 2098.

Definition zero : num := Fin 0.

Definition neg (x : num) : num :=
  match x with
  | NaN => NaN
  | NegInf => PosInf
  | Fin u => Fin (- u)
  | PosInf => NegInf
  end.

(** Nearest integer to [n / d] for [0 <= n] and [0 < d], ties to even. *)
Definition rne (n d : Z) : Z :=
  let q := n / d in
  let r := n mod d in
  match 2 * r ?= d with
  | Lt => q
  | Gt => q + 1
  | Eq => if Z.even q then q else q + 1
  end.

(** Exponent of the unit in the last place of [n / d] (a value counted in
    units of [2^-1074]): 53 significant bits, and never below the unit. *)
Definition ulp_exp (n d : Z) : Z := Z.max 0 (Z.log2 (n / d) - 52).

(** Round-to-nearest-even of the non-negative rational [n / d] units. *)
Definition round_pos (n d : Z) : num :=
  let e := ulp_exp n d in
  let r := rne n (d * 2 ^ e) * 2 ^ e in
  if r <? overflow then Fin r else PosInf.

(** The double nearest to [n / d] units, for [0 < d]. *)
Definition round_ratio (n d : Z) : num :=
  if n <? 0 then neg (round_pos (- n) d) else round_pos n d.

(** The Number of an integer literal or an integer-valued counter. *)
Definition of_Z (n : Z) : num := round_ratio (n * one) 1.

(** [x * y] *)
Definition mul (x y : num) : num :=
  match x, y with
  | NaN, _ | _, NaN => NaN
  | Fin a, Fin b => round_ratio (a * b) one
  | Fin a, PosInf | PosInf, Fin a =>
      if a =? 0 then NaN else if 0 <? a then PosInf else NegInf
  | Fin a, NegInf | NegInf, Fin a =>
      if a =? 0 then NaN else if 0 <? a then NegInf else PosInf
  | PosInf, PosInf | NegInf, NegInf => PosInf
  | PosInf, NegInf | NegInf, PosInf => NegInf
  end.

(** [x / y] *)
Definition div (x y : num) : num :=
  match x, y with
  | NaN, _ | _, NaN => NaN
  | Fin a, Fin b =>
      if b =? 0 then
        if a =? 0 then NaN else if 0 <? a then PosInf else NegInf
      else round_ratio (Z.sgn b * a * one) (Z.abs b)
  | Fin _, (PosInf | NegInf) => Fin 0
  | PosInf, Fin b => if 0 <=? b then PosInf else NegInf
  | NegInf, Fin b => if 0 <=? b then NegInf else PosInf
  | (PosInf | NegInf), (PosInf | NegInf) => NaN
  end.

(** [Math.round(x)]: the integer nearest to [x], ties towards +Infinity. *)
Definition round (x : num) : num :=
  match x with
  | Fin u => Fin ((u + one / 2) / one * one)
  | _ => x
  end.

(** [x <= y] and [x > y]; every comparison with NaN is false. *)
Definition leb (x y : num) : bool :=
  match x, y with
  | NaN, _ | _, NaN => false
  | NegInf, _ | _, PosInf => true
  | Fin a, Fin b => a <=? b
  | _, _ => false
  end.

Definition gtb (x y : num) : bool :=
  match x, y with
  | NaN, _ | _, NaN => false
  | NegInf, _ | _, PosInf => false
  | Fin a, Fin b => b <? a
  | _, _ => true
  end.

(** [Math.min(x, y)] *)
Definition min (x y : num) : num :=
  match x, y with
  | NaN, _ | _, NaN => NaN
  | _, _ => if leb x y then x else y
  end.

End Number.

(** ** Exceptions

    A handler either returns or throws; what it throws ends the handler (and,
    at load time, the whole [DOMContentLoaded] callback). *)
Inductive error : Type := TypeError | SyntaxError.

Inductive result (A : Type) : Type :=
| Ok (a : A)
| Throw (e : error).
Arguments Ok {A} a.
Arguments Throw {A} e.

#[export] Instance result_ret : MRet result := fun A a => Ok a.
#[export] Instance result_bind : MBind result := fun A B f m =>
  match m with
  | Ok a => f a
  | Throw e => Throw e
  end.

Definition succeeds {A} (r : result A) : Prop := exists a, r = Ok a.

(** ** The DOM: nodes and their class lists

    A node is known by its identity; the only part of a node that the
    handlers of more than one section change is its [classList], a set of
    tokens. *)
Module Dom.

Definition elem : Type := nat.

Abbreviation dom := (gmap nat (gset string)).

Definition classList (d : dom) (e : elem) : gset string := d !!! e.

Definition contains (d : dom) (e : elem) (c : string) : bool :=
  bool_decide (c ∈ classList d e).

Definition add (e : elem) (c : string) (d : dom) : dom :=
  <[e := {[c]} ∪ classList d e]> d.

Definition remove (e : elem) (c : string) (d : dom) : dom :=
  <[e := classList d e ∖ {[c]}]> d.

(** [classList.toggle(c, force)] *)
Definition toggle_force (e : elem) (c : string) (force : bool) (d : dom) : dom :=
  if force then add e c d else remove e c d.

(** [classList.toggle(c)], with the value it returns. *)
Definition toggle (e : elem) (c : string) (d : dom) : dom * bool :=
  if contains d e c then (remove e c d, false) else (add e c d, true).

(** [nodes.forEach(f)] over a static NodeList. *)
Definition for_each {S : Type} (f : elem -> S -> S) (nodes : list elem) (s : S) : S :=
  foldl (fun acc e => f e acc) s nodes.

End Dom.

(** ** 1. Navbar: scroll effect and mobile drawer *)
Module Navbar.
Import Dom.

(** [navbar] is the outcome of [document.querySelector('.navbar')];
    dereferencing [null] throws. *)
Definition addNavScrollClass (navbar : option elem) (scrollY : Number.num) (d : dom)
  : result dom :=
  if Number.gtb scrollY (Number.of_Z 50) then
    match navbar with
    | Some nb => Ok (add nb "scrolled" d)
    | None => Throw TypeError
    end
  else
    match navbar with
    | Some nb => Ok (remove nb "scrolled" d)
    | None => Throw TypeError
    end.

(** The click handler of the hamburger; [overflow] is
    [document.body.style.overflow]. *)
Definition hamburger_click (hamburger navMenu : elem) (s : dom * string) : dom * string :=
  let '(d1, isOpen) := toggle navMenu "open" s.1 in
  (toggle_force hamburger "active" isOpen d1,
   if isOpen then "hidden" else ""%string).

Definition nav_link_click (hamburger navMenu : elem) (s : dom * string) : dom * string :=
  (remove hamburger "active" (remove navMenu "open" s.1), ""%string).

End Navbar.

(** ** 2, 3. The intersection observers *)
Module Observers.
Import Dom.

Record entry : Type := { target : elem; isIntersecting : bool }.

(** ** 2. Active nav link.  [href l] is [l.getAttribute('href')] and
    [id_of e] is [e.id]. *)
Definition active_section_entry
    (navAnchorLinks : list elem) (href : elem -> option string) (id_of : elem -> string)
    (en : entry) (d : dom) : dom :=
  if negb (isIntersecting en) then d
  else
    for_each
      (fun link acc =>
         let isMatchingSection :=
           bool_decide (href link = Some ("#" ++ id_of (target en))%string) in
         toggle_force link "active" isMatchingSection acc)
      navAnchorLinks d.

Definition active_section_callback
    (navAnchorLinks : list elem) (href : elem -> option string) (id_of : elem -> string)
    (entries : list entry) (d : dom) : dom :=
  foldl (fun acc en => active_section_entry navAnchorLinks href id_of en acc) d entries.

(** ** 3. Scroll reveal.  The state of the callback is the class store and
    the set of targets the observer still watches. *)
Definition reveal_entry (en : entry) (s : dom * gset elem) : dom * gset elem :=
  if negb (isIntersecting en) then s
  else (add (target en) "revealed" s.1, s.2 ∖ {[target en]}).

Definition reveal_callback (entries : list entry) (s : dom * gset elem) : dom * gset elem :=
  foldl (fun acc en => reveal_entry en acc) s entries.

End Observers.

(** ** 4. Typing effect: the [TypeWriter] class *)
Module TypeWriter.
Local Open Scope Z_scope.

(** A string is its sequence of code units.  The effect only takes
    lengths, prefixes and equality of strings, so the width of a code unit
    plays no part. *)
Definition jsstring : Type := list ascii.

Definition str_length (s : jsstring) : Z := Z.of_nat (length s).

(** [s.substring(a, b)]: both ends are clamped to [0, s.length] and
    swapped when out of order. *)
Definition substring (s : jsstring) (a b : Z) : jsstring :=
  let clamp i := Z.min (Z.max i 0) (str_length s) in
  let lo := Z.min (clamp a) (clamp b) in
  let hi := Z.max (clamp a) (clamp b) in
  take (Z.to_nat (hi - lo)) (drop (Z.to_nat lo) s).

(** [a % b] on array indices; [None] is NaN. *)
Definition rem (a b : nat) : option nat :=
  if Nat.eqb b 0 then None else Some (a mod b)%nat.

(** [ws[i]]; [None] is [undefined]. *)
Definition index (ws : list jsstring) (i : option nat) : option jsstring :=
  match i with
  | Some n => ws !! n
  | None => None
  end.

(** The fields of a [TypeWriter], with the text of the element it writes
    to.  [wordIndex] counts the words typed so far; it is a Number, whose
    increments are exact as long as it stays below 2^53. *)
Record t : Type := {
  textContent : jsstring;
  words : list jsstring;
  waitTime : Z;
  wordIndex : nat;
  text : jsstring;
  isDeleting : bool
}.

(** [type()]: one step of the effect.  It returns the delay, in
    milliseconds, of the timeout that will call [type()] again. *)
Definition type (tw : t) : result (t * Z) :=
  match index (words tw) (rem (wordIndex tw) (length (words tw))) with
  | None => Throw TypeError
  | Some currentWord =>
      let text1 :=
        if isDeleting tw
        then substring currentWord 0 (str_length (text tw) - 1)
        else substring currentWord 0 (str_length (text tw) + 1) in
      let delay := if isDeleting tw then 50 else 100 in
      if negb (isDeleting tw) && bool_decide (text1 = currentWord) then
        Ok ({| textContent := text1; words := words tw; waitTime := waitTime tw;
               wordIndex := wordIndex tw; text := text1; isDeleting := true |},
            waitTime tw)
      else if isDeleting tw && bool_decide (text1 = []) then
        Ok ({| textContent := text1; words := words tw; waitTime := waitTime tw;
               wordIndex := S (wordIndex tw); text := text1; isDeleting := false |},
            400)
      else
        Ok ({| textContent := text1; words := words tw; waitTime := waitTime tw;
               wordIndex := wordIndex tw; text := text1; isDeleting := isDeleting tw |},
            delay)
  end.

(** The effect at the start of word [i], with nothing typed yet.  The
    constructor sets the fields so for word 0, before it calls [type()];
    [markup] is what the element holds in the page. *)
Definition fresh (markup : jsstring) (ws : list jsstring) (wait : Z) (i : nat) : t :=
  {| textContent := markup; words := ws; waitTime := wait;
     wordIndex := i; text := []; isDeleting := false |}.

(** [new TypeWriter(element, words, waitTime)] *)
Definition construct (markup : jsstring) (ws : list jsstring) (wait : Z) : result (t * Z) :=
  type (fresh markup ws wait 0).

(** [n] calls of [type()], each one made by the timeout of the call before
    it, with what each call left on the page and the delay it asked for. *)
Fixpoint steps (n : nat) (tw : t) : result (list (jsstring * Z) * t) :=
  match n with
  | O => Ok ([], tw)
  | S n' =>
      match type tw with
      | Throw e => Throw e
      | Ok (tw1, delay) =>
          match steps n' tw1 with
          | Throw e => Throw e
          | Ok (log, tw2) => Ok ((textContent tw1, delay) :: log, tw2)
          end
      end
  end.

(** The word the effect is working on. *)
Definition currentWord (tw : t) : option jsstring :=
  index (words tw) (rem (wordIndex tw) (length (words tw))).

End TypeWriter.

(** ** 5. Stats counter: [countUp] *)
Module CountUp.
Local Open Scope Z_scope.

(** What the element shows: the page's markup, or [value + suffix] as the
    callback wrote it. *)
Inductive content : Type :=
| Markup
| Shown (value : Number.num) (suffix : string).

Definition duration : Z := 2000.
Definition steps : Z := 60.
Definition stepTime : Number.num :=
  Number.div (Number.of_Z duration) (Number.of_Z steps).

(** The variables of one call of [countUp]: the step counter, the text of
    the element, and whether the interval is still registered. *)
Record t : Type := {
  currentStep : Z;
  textContent : content;
  timer : bool
}.

(** [el.getAttribute('data-suffix') || ''] *)
Definition suffix_of (attr : option string) : string :=
  match attr with
  | Some s => s
  | None => ""%string
  end.

(** [countUp(el)]: the variables it declares, with the interval it
    registers; [shown] is what the element holds in the page. *)
Definition countUp (shown : content) : t :=
  {| currentStep := 0; textContent := shown; timer := true |}.

(** The callback given to [setInterval].  The step counter only takes the
    values 1 to 60 and is kept as an integer. *)
Definition callback (target : Number.num) (suffix : string) (c : t) : t :=
  let currentStep1 := currentStep c + 1 in
  let value :=
    Number.min
      (Number.round
         (Number.mul (Number.div target (Number.of_Z steps))
                     (Number.of_Z currentStep1)))
      target in
  let c1 :=
    {| currentStep := currentStep1; textContent := Shown value suffix; timer := timer c |} in
  if steps <=? currentStep1 then
    {| currentStep := currentStep1; textContent := Shown target suffix; timer := false |}
  else c1.

(** One period of the interval: the callback runs unless the interval was
    cleared. *)
Definition tick (target : Number.num) (suffix : string) (c : t) : t :=
  if timer c then callback target suffix c else c.

Definition run (target : Number.num) (suffix : string) (n : nat) (c : t) : t :=
  Nat.iter n (tick target suffix) c.

(** What the element shows after [n] periods of a fresh interval. *)
Definition shown_after (target : Number.num) (suffix : string) (shown : content) (n : nat)
  : content :=
  textContent (run target suffix n (countUp shown)).

(** How often the callback runs in the next [n] periods. *)
Fixpoint fired (target : Number.num) (suffix : string) (n : nat) (c : t) : nat :=
  match n with
  | O => O
  | S n' =>
      ((if timer c then 1 else 0) + fired target suffix n' (tick target suffix c))%nat
  end.

End CountUp.

(** ** 7. Project filter *)
Module Filter.
Import Dom.

(** The click handler of the filter button [btn].  [data_filter] and
    [data_category] are [getAttribute], which gives [null] ([None]) for an
    attribute the element does not have. *)
Definition click
    (filterButtons projectCards : list elem)
    (data_filter data_category : elem -> option string)
    (btn : elem) (d : dom) : dom :=
  let d1 := for_each (fun b acc => remove b "active" acc) filterButtons d in
  let d2 := add btn "active" d1 in
  let selectedFilter := data_filter btn in
  for_each
    (fun card acc =>
       let cardCategory := data_category card in
       let shouldShow :=
         bool_decide (selectedFilter = Some "all"%string)
         || bool_decide (cardCategory = selectedFilter) in
       toggle_force card "hidden" (negb shouldShow) acc)
    projectCards d2.

Definition visible (d : dom) (card : elem) : Prop := "hidden"%string ∉ classList d card.

End Filter.

(** ** 8. Contact form: submit feedback *)
Module Form.
Local Open Scope Z_scope.

Record button : Type := {
  innerHTML : string;
  background : string;   (* [style.background], the inline declaration *)
  disabled : bool
}.

Record field : Type := { value : string; defaultValue : string }.

(** [submitBtn] is the outcome of
    [contactForm.querySelector('button[type="submit"]')]. *)
Record form : Type := { fields : list field; submitBtn : option button }.

(** The closure given to [setTimeout], with the label it captured. *)
Inductive closure : Type := Restore (originalLabel : string).

(** The form, the clock (in milliseconds) and the pending timeouts, each
    with the time it is due. *)
Record state : Type := {
  now : Z;
  contactForm : form;
  timeouts : list (Z * closure)
}.

Definition sent_label : string := "Sent! ✓".
Definition sent_background : string := "linear-gradient(135deg, #10b981, #06b6d4)".

(** [contactForm.reset()] *)
Definition reset (fs : list field) : list field :=
  map (fun f => {| value := defaultValue f; defaultValue := defaultValue f |}) fs.

(** The submit handler.  The first component is the event's
    [defaultPrevented] once the handler has ended, by return or by throw. *)
Definition submit (s : state) : bool * result state :=
  (true,
   match submitBtn (contactForm s) with
   | None => Throw TypeError
   | Some b =>
       let originalLabel := innerHTML b in
       let b1 :=
         {| innerHTML := sent_label; background := sent_background; disabled := true |} in
       Ok {| now := now s;
             contactForm := {| fields := fields (contactForm s); submitBtn := Some b1 |};
             timeouts := timeouts s ++ [(now s + 2500, Restore originalLabel)] |}
   end).

Definition run_closure (c : closure) (f : form) : form :=
  match c with
  | Restore originalLabel =>
      {| fields := reset (fields f);
         submitBtn :=
           (fun _ => {| innerHTML := originalLabel; background := ""; disabled := false |})
             <$> submitBtn f |}
  end.

(** The clock moves on by [dt]; the timeouts that are due by then run, in the
    order they were set. *)
Definition advance (dt : Z) (s : state) : state :=
  let t := now s + dt in
  let due := filter (fun p => p.1 <= t) (timeouts s) in
  let pending := filter (fun p => ¬ p.1 <= t) (timeouts s) in
  {| now := t;
     contactForm := foldl (fun f p => run_closure p.2 f) (contactForm s) due;
     timeouts := pending |}.

End Form.

(** ** 5 (continued). The observer that starts the counters *)
Module Stats.
Import Dom Observers.

(** The state of the callback: the elements [countUp] was called on, in
    order, and the targets the observer still watches. *)
Definition stats_entry (en : entry) (s : list elem * gset elem) : list elem * gset elem :=
  if negb (isIntersecting en) then s
  else (s.1 ++ [target en], s.2 ∖ {[target en]}).

Definition stats_callback (entries : list entry) (s : list elem * gset elem)
  : list elem * gset elem :=
  foldl (fun acc en => stats_entry en acc) s entries.

End Stats.

(** ** 6. Back-to-top button *)
Module BackToTop.
Import Dom.

Definition scroll (btn : elem) (scrollY : Number.num) (d : dom) : dom :=
  toggle_force btn "visible" (Number.gtb scrollY (Number.of_Z 500)) d.

End BackToTop.

(** ** The page: what the script finds at load, and what it installs *)
Module Page.
Import Dom Observers.

(** The [data-words] attribute of the typing target, as [JSON.parse] reads
    it: a syntax error, or an array of strings. *)
Inductive data_words : Type :=
| Unparsable
| WordArray (ws : list TypeWriter.jsstring).

Definition JSON_parse (a : data_words) : result (list TypeWriter.jsstring) :=
  match a with
  | Unparsable => Throw SyntaxError
  | WordArray ws => Ok ws
  end.

(** The outcome of every query the script makes, and the attributes it
    reads.  A [querySelector] or [getElementById] that finds nothing gives
    [None]; a [querySelectorAll] gives a list, possibly empty. *)
Record page : Type := {
  navbar : option elem;
  hamburger : option elem;
  navMenu : option elem;
  navMenuLinks : list elem;
  contentSections : list elem;
  navAnchorLinks : list elem;
  revealElements : list elem;
  typedTarget : option (TypeWriter.jsstring * data_words);
  statElements : list elem;
  backToTopBtn : option elem;
  filterButtons : list elem;
  projectCards : list elem;
  contactForm : option Form.form;
  href : elem -> option string;
  id_of : elem -> string;
  data_filter : elem -> option string;
  data_category : elem -> option string
}.

(** What the load has installed: listeners, observed targets, and the
    typing effect with the delay of its pending timeout. *)
Record installed : Type := {
  scroll_navbar : bool;
  drawer_clicks : option (elem * elem * list elem);
  section_targets : list elem;
  reveal_targets : list elem;
  typing : option (TypeWriter.t * Z);
  stats_targets : list elem;
  scroll_back_to_top : option elem;
  filter_clicks : list elem;
  form_submit : bool
}.

Definition nothing_installed : installed :=
  {| scroll_navbar := false; drawer_clicks := None; section_targets := [];
     reveal_targets := []; typing := None; stats_targets := [];
     scroll_back_to_top := None; filter_clicks := []; form_submit := false |}.

(** Sections 1 to 3 of the script, once [addNavScrollClass()] has returned. *)
Definition sections_1_to_3 (pg : page) : installed :=
  {| scroll_navbar := true;
     drawer_clicks :=
       match hamburger pg, navMenu pg with
       | Some h, Some m => Some (h, m, navMenuLinks pg)
       | _, _ => None
       end;
     section_targets := contentSections pg;
     reveal_targets := revealElements pg;
     typing := None; stats_targets := [];
     scroll_back_to_top := None; filter_clicks := []; form_submit := false |}.

(** Sections 5 to 8, after section 4 left the typing effect [tw]. *)
Definition sections_5_to_8 (pg : page) (tw : option (TypeWriter.t * Z)) (i : installed)
  : installed :=
  {| scroll_navbar := scroll_navbar i;
     drawer_clicks := drawer_clicks i;
     section_targets := section_targets i;
     reveal_targets := reveal_targets i;
     typing := tw;
     stats_targets :=
       if (0 <? length (statElements pg))%nat then statElements pg else [];
     scroll_back_to_top := backToTopBtn pg;
     filter_clicks := filterButtons pg;
     form_submit := bool_decide (is_Some (contactForm pg)) |}.

(** The [DOMContentLoaded] callback: the class store and the listeners it
    leaves, and the exception that ended it, if one did. *)
Definition setup (pg : page) (scrollY : Number.num) (d : dom)
  : dom * installed * option error :=
  match Navbar.addNavScrollClass (navbar pg) scrollY d with
  | Throw e => (d, nothing_installed, Some e)
  | Ok d1 =>
      let i3 := sections_1_to_3 pg in
      match typedTarget pg with
      | None => (d1, sections_5_to_8 pg None i3, None)
      | Some (markup, attr) =>
          match JSON_parse attr ≫= (fun ws => TypeWriter.construct markup ws 2000) with
          | Throw e => (d1, i3, Some e)
          | Ok tw => (d1, sections_5_to_8 pg (Some tw) i3, None)
          end
      end
  end.

(** The part of the page that the scroll, click and intersection handlers
    change. *)
Record state : Type := {
  classes : dom;
  overflow : string;
  watched_reveal : gset elem;
  watched_stats : gset elem;
  counting : list elem
}.

Inductive event : Type :=
| Scroll (scrollY : Number.num)
| HamburgerClick
| NavLinkClick
| SectionsIntersect (entries : list entry)
| RevealIntersect (entries : list entry)
| StatsIntersect (entries : list entry)
| FilterClick (btn : elem).

Definition with_classes (d : dom) (s : state) : state :=
  {| classes := d; overflow := overflow s; watched_reveal := watched_reveal s;
     watched_stats := watched_stats s; counting := counting s |}.

(** The listeners of a page that loaded, run on one event. *)
Definition handle (pg : page) (ev : event) (s : state) : state :=
  match ev with
  | Scroll y =>
      let d1 :=
        match Navbar.addNavScrollClass (navbar pg) y (classes s) with
        | Ok d' => d'
        | Throw _ => classes s
        end in
      let d2 :=
        match backToTopBtn pg with
        | Some b => BackToTop.scroll b y d1
        | None => d1
        end in
      with_classes d2 s
  | HamburgerClick =>
      match hamburger pg, navMenu pg with
      | Some h, Some m =>
          let r := Navbar.hamburger_click h m (classes s, overflow s) in
          {| classes := r.1; overflow := r.2; watched_reveal := watched_reveal s;
             watched_stats := watched_stats s; counting := counting s |}
      | _, _ => s
      end
  | NavLinkClick =>
      match hamburger pg, navMenu pg with
      | Some h, Some m =>
          let r := Navbar.nav_link_click h m (classes s, overflow s) in
          {| classes := r.1; overflow := r.2; watched_reveal := watched_reveal s;
             watched_stats := watched_stats s; counting := counting s |}
      | _, _ => s
      end
  | SectionsIntersect entries =>
      with_classes
        (active_section_callback (navAnchorLinks pg) (href pg) (id_of pg) entries (classes s))
        s
  | RevealIntersect entries =>
      let r := reveal_callback entries (classes s, watched_reveal s) in
      {| classes := r.1; overflow := overflow s; watched_reveal := r.2;
         watched_stats := watched_stats s; counting := counting s |}
  | StatsIntersect entries =>
      let r := Stats.stats_callback entries (counting s, watched_stats s) in
      {| classes := classes s; overflow := overflow s; watched_reveal := watched_reveal s;
         watched_stats := r.2; counting := r.1 |}
  | FilterClick btn =>
      if bool_decide (btn ∈ filterButtons pg) then
        with_classes
          (Filter.click (filterButtons pg) (projectCards pg)
             (data_filter pg) (data_category pg) btn (classes s))
          s
      else s
  end.

Definition handle_all (pg : page) (evs : list event) (s : state) : state :=
  foldl (fun acc ev => handle pg ev acc) s evs.

Definition revealed (s : state) (e : elem) : bool := contains (classes s) e "revealed".

(** How often [e] goes from not revealed to revealed along the events. *)
Fixpoint reveal_transitions (pg : page) (e : elem) (evs : list event) (s : state) : nat :=
  match evs with
  | [] => O
  | ev :: evs' =>
      (if negb (revealed s e) && revealed (handle pg ev s) e then 1 else 0)
      + reveal_transitions pg e evs' (handle pg ev s)
  end.

End Page.

(** * Properties *)

(** ** Rounding to the nearest double is monotone *)
Section Rounding.
Import Number.
Local Open Scope Z_scope.

Lemma rne_lower n d c : 0 < d -> c * d <= n -> c <= rne n d.
Proof.
  intros Hd Hn. unfold rne.
  assert (c <= n / d) by (apply Z.div_le_lower_bound; lia).
  destruct (2 * (n mod d) ?= d); [destruct (Z.even (n / d))|..]; lia.
Qed.

Lemma rne_upper n d c : 0 < d -> n <= c * d -> rne n d <= c.
Proof.
  intros Hd Hn. unfold rne.
  pose proof (Z.div_mod n d ltac:(lia)) as E.
  pose proof (Z.mod_pos_bound n d Hd) as B.
  assert (n / d <= c) by (apply Z.div_le_upper_bound; lia).
  destruct (Z.eq_dec (n / d) c) as [Heq|Hne].
  - rewrite Heq in *. assert (n mod d = 0) by nia.
    replace (2 * (n mod d) ?= d) with Lt by (symmetry; apply Z.compare_lt_iff; lia).
    lia.
  - destruct (2 * (n mod d) ?= d); [destruct (Z.even (n / d))|..]; lia.
Qed.

Lemma rne_mono n1 n2 d : 0 < d -> n1 <= n2 -> rne n1 d <= rne n2 d.
Proof.
  intros Hd Hn.
  pose proof (Z.div_mod n1 d ltac:(lia)) as E1.
  pose proof (Z.div_mod n2 d ltac:(lia)) as E2.
  pose proof (Z.mod_pos_bound n1 d Hd) as B1.
  pose proof (Z.mod_pos_bound n2 d Hd) as B2.
  assert (Hq : n1 / d <= n2 / d) by (apply Z.div_le_mono; lia).
  unfold rne.
  destruct (Z.eq_dec (n1 / d) (n2 / d)) as [Heq|Hne].
  - rewrite <- Heq in *.
    assert (n1 mod d <= n2 mod d) by nia.
    destruct (Z.compare_spec (2 * (n1 mod d)) d), (Z.compare_spec (2 * (n2 mod d)) d);
      destruct (Z.even (n1 / d)); lia.
  - destruct (2 * (n1 mod d) ?= d), (2 * (n2 mod d) ?= d);
      destruct (Z.even (n1 / d)), (Z.even (n2 / d)); lia.
Qed.

Lemma rne_exact m d : 0 < d -> rne (m * d) d = m.
Proof.
  intros Hd. unfold rne. rewrite Z.div_mul, Z.mod_mul by lia.
  replace (2 * 0 ?= d) with Lt by (symmetry; apply Z.compare_lt_iff; lia).
  reflexivity.
Qed.

Lemma ulp_exp_nonneg n d : 0 <= ulp_exp n d.
Proof. unfold ulp_exp. lia. Qed.

Lemma ulp_exp_mono n1 n2 d : 0 < d -> 0 <= n1 <= n2 -> ulp_exp n1 d <= ulp_exp n2 d.
Proof.
  intros Hd Hn. unfold ulp_exp.
  assert (n1 / d <= n2 / d) by (apply Z.div_le_mono; lia).
  assert (Z.log2 (n1 / d) <= Z.log2 (n2 / d)) by (apply Z.log2_le_mono; lia).
  lia.
Qed.

(** Below its unit in the last place a value has at most 53 bits ... *)
Lemma ulp_exp_upper n d :
  0 < d -> 0 <= n -> n < d * 2 ^ ulp_exp n d * 2 ^ 53.
Proof.
  intros Hd Hn. set (e := ulp_exp n d).
  assert (He : 0 <= e) by apply ulp_exp_nonneg.
  assert (Hq : 0 <= n / d) by (apply Z.div_pos; lia).
  assert (Hlt : n / d < 2 ^ (e + 53)).
  { destruct (Z.eq_dec (n / d) 0) as [->|Hz]; [apply Z.pow_pos_nonneg; lia|].
    apply Z.log2_lt_pow2; [lia|]. unfold e, ulp_exp. lia. }
  rewrite Z.pow_add_r in Hlt by lia.
  pose proof (Z.div_mod n d ltac:(lia)) as E.
  pose proof (Z.mod_pos_bound n d Hd) as B.
  assert (0 < 2 ^ e * 2 ^ 53) by (apply Z.mul_pos_pos; apply Z.pow_pos_nonneg; lia).
  nia.
Qed.

(** ... and above the unit, at least 53. *)
Lemma ulp_exp_lower n d :
  0 < d -> 0 <= n -> 0 < ulp_exp n d -> d * 2 ^ ulp_exp n d * 2 ^ 52 <= n.
Proof.
  intros Hd Hn. unfold ulp_exp. intros He.
  assert (Hl : Z.max 0 (Z.log2 (n / d) - 52) = Z.log2 (n / d) - 52) by lia.
  rewrite Hl in *.
  assert (Hq : 0 < n / d).
  { destruct (Z.eq_dec (n / d) 0) as [Hz|Hz].
    - rewrite Hz in He. simpl in He. lia.
    - assert (0 <= n / d) by (apply Z.div_pos; lia). lia. }
  pose proof (Z.log2_spec (n / d) Hq) as [Hlo _].
  replace (d * 2 ^ (Z.log2 (n / d) - 52) * 2 ^ 52) with (d * 2 ^ Z.log2 (n / d)).
  2:{ rewrite <- Z.mul_assoc, <- Z.pow_add_r by lia. do 2 f_equal. lia. }
  pose proof (Z.div_mod n d ltac:(lia)) as E.
  pose proof (Z.mod_pos_bound n d Hd) as B.
  nia.
Qed.

Lemma round_pos_mono n1 n2 d :
  0 < d -> 0 <= n1 <= n2 -> leb (round_pos n1 d) (round_pos n2 d) = true.
Proof.
  intros Hd Hn. unfold round_pos.
  set (e1 := ulp_exp n1 d). set (e2 := ulp_exp n2 d).
  assert (He1 : 0 <= e1) by apply ulp_exp_nonneg.
  assert (He : e1 <= e2) by (apply ulp_exp_mono; lia).
  assert (Hp1 : 0 < 2 ^ e1) by (apply Z.pow_pos_nonneg; lia).
  assert (Hp2 : 0 < 2 ^ e2) by (apply Z.pow_pos_nonneg; lia).
  assert (Hle : rne n1 (d * 2 ^ e1) * 2 ^ e1 <= rne n2 (d * 2 ^ e2) * 2 ^ e2).
  { destruct (Z.eq_dec e1 e2) as [Heq|Hne].
    - rewrite <- Heq. apply Z.mul_le_mono_nonneg_r; [lia|].
      apply rne_mono; [nia | lia].
    - assert (Hu : rne n1 (d * 2 ^ e1) <= 2 ^ 53).
      { apply rne_upper; [nia|]. pose proof (ulp_exp_upper n1 d Hd ltac:(lia)). fold e1 in H. lia. }
      assert (Hl : 2 ^ 52 <= rne n2 (d * 2 ^ e2)).
      { apply rne_lower; [nia|]. pose proof (ulp_exp_lower n2 d Hd ltac:(lia)). fold e2 in H.
        specialize (H ltac:(lia)). lia. }
      assert (Hpow : 2 ^ 53 * 2 ^ e1 <= 2 ^ 52 * 2 ^ e2).
      { rewrite <- !Z.pow_add_r by lia. apply Z.pow_le_mono_r; lia. }
      nia. }
  destruct (Z.ltb_spec (rne n1 (d * 2 ^ e1) * 2 ^ e1) overflow),
           (Z.ltb_spec (rne n2 (d * 2 ^ e2) * 2 ^ e2) overflow); simpl; try reflexivity.
  - apply Z.leb_le. lia.
  - lia.
Qed.

End Rounding.

(** ** The order on Numbers *)
Section NumberOrder.
Import Number.
Local Open Scope Z_scope.

(** [x] is a number, not NaN. *)
Definition is_number (x : num) : Prop := leb x x = true.

Definition nonneg (x : num) : Prop := leb zero x = true.

Lemma leb_is_number_l x y : leb x y = true -> is_number x.
Proof. unfold is_number. destruct x, y; simpl; try congruence; intros; apply Z.leb_refl. Qed.

Lemma leb_is_number_r x y : leb x y = true -> is_number y.
Proof. unfold is_number. destruct x, y; simpl; try congruence; intros; apply Z.leb_refl. Qed.

Lemma nonneg_cases x : nonneg x -> x = PosInf \/ exists u, x = Fin u /\ 0 <= u.
Proof.
  unfold nonneg. destruct x; simpl; try congruence; intros H.
  - right. exists u. split; [reflexivity | now apply Z.leb_le].
  - now left.
Qed.

Lemma round_pos_nonneg n d : 0 < d -> 0 <= n -> nonneg (round_pos n d).
Proof.
  intros Hd Hn. unfold nonneg, round_pos.
  pose proof (ulp_exp_nonneg n d) as He.
  assert (0 <= rne n (d * 2 ^ ulp_exp n d)).
  { apply rne_lower; [|lia]. apply Z.mul_pos_pos; [lia|]. apply Z.pow_pos_nonneg; lia. }
  assert (0 < 2 ^ ulp_exp n d) by (apply Z.pow_pos_nonneg; lia).
  destruct (_ <? overflow); simpl; [|reflexivity].
  apply Z.leb_le. nia.
Qed.

Lemma round_ratio_nonneg n d : 0 <= n -> round_ratio n d = round_pos n d.
Proof. intros Hn. unfold round_ratio. destruct (Z.ltb_spec n 0); [lia | reflexivity]. Qed.

(** Integers below 2^53 are doubles. *)
Lemma of_Z_exact k : 0 <= k < 2 ^ 53 -> of_Z k = Fin (k * one).
Proof.
  intros Hk. unfold of_Z. rewrite round_ratio_nonneg by (unfold one; lia).
  destruct (Z.eq_dec k 0) as [->|Hz]; [reflexivity|].
  assert (Hl : 0 <= Z.log2 k <= 52).
  { split; [apply Z.log2_nonneg|]. apply Z.lt_succ_r, Z.log2_lt_pow2; lia. }
  set (e := 1074 + Z.log2 k - 52).
  assert (He : ulp_exp (k * one) 1 = e).
  { unfold ulp_exp, one. rewrite Z.div_1_r, Z.log2_mul_pow2 by lia. unfold e. lia. }
  assert (Hone : one = 2 ^ (1074 - e) * 2 ^ e).
  { unfold one. rewrite <- Z.pow_add_r by lia. f_equal. lia. }
  assert (Hrne : rne (k * one) (1 * 2 ^ e) = k * 2 ^ (1074 - e)).
  { rewrite Z.mul_1_l, Hone, Z.mul_assoc. apply rne_exact, Z.pow_pos_nonneg; lia. }
  assert (Hlt : k * one < overflow).
  { unfold one, overflow. change (2 ^ 2098) with (2 ^ 1024 * 2 ^ 1074).
    apply Z.mul_lt_mono_pos_r; [reflexivity|].
    eapply Z.lt_trans; [apply Hk | reflexivity]. }
  unfold round_pos. rewrite He, Hrne, <- Z.mul_assoc, <- Hone.
  destruct (Z.ltb_spec (k * one) overflow); [reflexivity | lia].
Qed.

Lemma of_Z_nonneg n : 0 <= n -> nonneg (of_Z n).
Proof.
  intros Hn. unfold of_Z. assert (0 < one) by (unfold one; lia).
  rewrite round_ratio_nonneg by nia. apply round_pos_nonneg; nia.
Qed.

(** The model on three well-known doubles: 0.1 is
    [0x1.999999999999ap-4]; [2^53 + 1] is a tie and goes to the even
    [2^53]; and [(1 / 60) * 30] is exactly one half. *)
Example one_tenth :
  div (of_Z 1) (of_Z 10) = Fin (7205759403792794 * 2 ^ 1018).
Proof. vm_compute. reflexivity. Qed.

Example tie_to_even : of_Z (2 ^ 53 + 1) = of_Z (2 ^ 53).
Proof. vm_compute. reflexivity. Qed.

Example half_of_a_minute :
  mul (div (of_Z 1) (of_Z 60)) (of_Z 30) = Fin (one / 2).
Proof. vm_compute. reflexivity. Qed.

Lemma mul_mono_r x b1 b2 :
  nonneg x -> 0 < b1 <= b2 -> leb (mul x (Fin b1)) (mul x (Fin b2)) = true.
Proof.
  intros Hx Hb. destruct (nonneg_cases x Hx) as [->|(a & -> & Ha)]; simpl.
  - destruct (Z.eqb_spec b1 0), (Z.eqb_spec b2 0); try lia.
    destruct (Z.ltb_spec 0 b1), (Z.ltb_spec 0 b2); try lia. reflexivity.
  - rewrite !round_ratio_nonneg by nia.
    apply round_pos_mono; [unfold one; lia | nia].
Qed.

Lemma div_nonneg x b : nonneg x -> 0 < b -> nonneg (div x (Fin b)).
Proof.
  intros Hx Hb. destruct (nonneg_cases x Hx) as [->|(a & -> & Ha)]; simpl.
  - destruct (Z.leb_spec 0 b); [reflexivity | lia].
  - destruct (Z.eqb_spec b 0); [lia|].
    rewrite Z.sgn_pos, Z.abs_eq by lia.
    assert (0 < one) by (unfold one; lia).
    rewrite round_ratio_nonneg by nia. apply round_pos_nonneg; nia.
Qed.

Lemma round_mono x y : leb x y = true -> leb (round x) (round y) = true.
Proof.
  destruct x, y; simpl; try congruence. intros H. apply Z.leb_le in H. apply Z.leb_le.
  assert (0 < one) by (unfold one; lia).
  apply Z.mul_le_mono_nonneg_r; [lia|]. apply Z.div_le_mono; lia.
Qed.

Lemma min_mono_l a b t :
  leb a b = true -> is_number t -> leb (min a t) (min b t) = true.
Proof.
  unfold is_number. intros Hab Ht.
  destruct a, b, t; simpl in *; try congruence;
    repeat match goal with
           | |- context [?x <=? ?y] => destruct (Z.leb_spec x y); simpl
           | H : (_ <=? _) = true |- _ => apply Z.leb_le in H
           end; try reflexivity; try apply Z.leb_le; lia.
Qed.

Lemma min_le_r a t : is_number a -> is_number t -> leb (min a t) t = true.
Proof.
  unfold is_number. intros Ha Ht.
  destruct a, t; simpl in *; try congruence;
    repeat match goal with
           | |- context [?x <=? ?y] => destruct (Z.leb_spec x y); simpl
           end; try reflexivity; try apply Z.leb_le; lia.
Qed.

End NumberOrder.

(** ** 5. The count-up animation *)
Section CountUpFacts.
Import Number CountUp.
Local Open Scope Z_scope.

Variables (target : num) (suffix : string).

(** The value the callback computes at step [k]. *)
Definition value_at (k : Z) : num :=
  min (round (mul (div target (of_Z steps)) (of_Z k))) target.

Lemma callback_before_end c :
  currentStep c + 1 < steps ->
  callback target suffix c =
    {| currentStep := currentStep c + 1;
       textContent := Shown (value_at (currentStep c + 1)) suffix;
       timer := timer c |}.
Proof.
  intros H. unfold callback. destruct (Z.leb_spec steps (currentStep c + 1)); [lia|].
  reflexivity.
Qed.

Lemma callback_at_end c :
  steps <= currentStep c + 1 ->
  callback target suffix c =
    {| currentStep := currentStep c + 1; textContent := Shown target suffix; timer := false |}.
Proof.
  intros H. unfold callback. destruct (Z.leb_spec steps (currentStep c + 1)); [|lia].
  reflexivity.
Qed.

Lemma run_S n c : run target suffix (S n) c = tick target suffix (run target suffix n c).
Proof. reflexivity. Qed.

Lemma run_before_end (k : nat) shown :
  (k < 60)%nat ->
  run target suffix k (countUp shown) =
    {| currentStep := Z.of_nat k;
       textContent := match k with O => shown | S _ => Shown (value_at (Z.of_nat k)) suffix end;
       timer := true |}.
Proof.
  induction k as [|k IH]; intros Hk; [reflexivity|].
  rewrite run_S, IH by lia. unfold tick. cbn [timer].
  rewrite callback_before_end by (cbn [currentStep]; unfold steps; lia).
  cbn [currentStep timer]. replace (Z.of_nat k + 1) with (Z.of_nat (S k)) by lia.
  reflexivity.
Qed.

Lemma run_at_end shown :
  run target suffix 60 (countUp shown) =
    {| currentStep := 60; textContent := Shown target suffix; timer := false |}.
Proof.
  rewrite run_S, run_before_end by lia. unfold tick. cbn [timer].
  rewrite callback_at_end by (cbn [currentStep]; unfold steps; lia).
  reflexivity.
Qed.

Lemma run_cleared n c : timer c = false -> run target suffix n c = c.
Proof.
  intros Hc. induction n as [|n IH]; [reflexivity|].
  rewrite run_S, IH. unfold tick. now rewrite Hc.
Qed.

Lemma run_add n m c :
  run target suffix (n + m) c = run target suffix n (run target suffix m c).
Proof. unfold run. apply Nat.iter_add. Qed.

Lemma fired_cleared n c : timer c = false -> fired target suffix n c = O.
Proof.
  revert c. induction n as [|n IH]; intros c Hc; [reflexivity|].
  cbn [fired]. unfold tick. rewrite Hc. now rewrite IH.
Qed.

Lemma fired_running (j : nat) c :
  timer c = true -> 0 <= currentStep c -> currentStep c + Z.of_nat j <= steps ->
  fired target suffix j c = j.
Proof.
  revert c. induction j as [|j IH]; intros c Hc H0 Hj; [reflexivity|].
  cbn [fired]. rewrite Hc. unfold tick. rewrite Hc. f_equal.
  destruct j as [|j]; [reflexivity|].
  unfold steps in *.
  assert (Hlt : currentStep c + 1 < 60) by lia.
  apply IH; rewrite callback_before_end by exact Hlt; cbn [timer currentStep]; [assumption|lia|lia].
Qed.

Lemma fired_add n m c :
  fired target suffix (n + m) c =
    (fired target suffix n c + fired target suffix m (run target suffix n c))%nat.
Proof.
  revert c. induction n as [|n IH]; intros c; [reflexivity|].
  cbn [Nat.add fired]. rewrite IH.
  replace (run target suffix (S n) c) with (run target suffix n (tick target suffix c)).
  - lia.
  - unfold run. symmetry. apply Nat.iter_succ_r.
Qed.

Lemma value_at_mono j k :
  nonneg target -> 1 <= j <= k -> k <= steps ->
  leb (value_at j) (value_at k) = true.
Proof.
  intros Ht Hj Hk. unfold value_at, steps in *.
  assert (0 < one) by (unfold one; lia).
  rewrite !of_Z_exact by lia.
  apply min_mono_l; [|exact (leb_is_number_r _ _ Ht)].
  apply round_mono, mul_mono_r; [|nia].
  apply div_nonneg; [assumption | lia].
Qed.

Lemma value_at_le_target k :
  nonneg target -> 1 <= k <= steps -> leb (value_at k) target = true.
Proof.
  intros Ht Hk.
  pose proof (value_at_mono k k Ht ltac:(lia) ltac:(lia)) as Hrefl.
  unfold value_at in *. apply min_le_r; [|exact (leb_is_number_r _ _ Ht)].
  unfold steps in *. assert (0 < one) by (unfold one; lia).
  rewrite !of_Z_exact by lia.
  eapply leb_is_number_l, round_mono, mul_mono_r with (b2 := k * one); [|nia].
  apply div_nonneg; [assumption | lia].
Qed.

End CountUpFacts.

(** Step 10 towards 3 computes [0.05 * 10], one half, and shows 1; step 30
    towards 150 computes 75. *)
Example value_at_3_10 : value_at (Number.of_Z 3) 10 = Number.of_Z 1.
Proof. vm_compute. reflexivity. Qed.

Example value_at_150_30 : value_at (Number.of_Z 150) 30 = Number.of_Z 75.
Proof. vm_compute. reflexivity. Qed.

(** C1.  For every non-negative target (every non-negative integer that
    [parseInt] can return is one, zero included), the values the count-up
    animation displays over its 60 steps never decrease, never exceed the
    target, and the value displayed at the 60th step is exactly the target. *)
Theorem countUp_monotone_bounded_exact
    (target : Number.num) (suffix : string) (shown : CountUp.content) :
  nonneg target ->
  (forall k : nat, (1 <= k < 60)%nat ->
     exists a b,
       CountUp.shown_after target suffix shown k = CountUp.Shown a suffix /\
       CountUp.shown_after target suffix shown (S k) = CountUp.Shown b suffix /\
       Number.leb a b = true) /\
  (forall k : nat, (1 <= k <= 60)%nat ->
     exists a,
       CountUp.shown_after target suffix shown k = CountUp.Shown a suffix /\
       Number.leb a target = true) /\
  CountUp.shown_after target suffix shown 60 = CountUp.Shown target suffix.
Proof.
  intros Ht. unfold CountUp.shown_after.
  assert (Hshow : forall k : nat, (1 <= k < 60)%nat ->
            CountUp.textContent (CountUp.run target suffix k (CountUp.countUp shown)) =
            CountUp.Shown (value_at target (Z.of_nat k)) suffix).
  { intros k Hk. rewrite run_before_end by lia. destruct k; [lia | reflexivity]. }
  assert (Hend : CountUp.textContent (CountUp.run target suffix 60 (CountUp.countUp shown)) =
                 CountUp.Shown target suffix) by (now rewrite run_at_end).
  split; [|split]; [| |exact Hend].
  - intros k Hk. destruct (decide (S k = 60)) as [E|E].
    + exists (value_at target (Z.of_nat k)), target. rewrite E, Hend, Hshow by lia.
      repeat split. apply value_at_le_target; [assumption | unfold CountUp.steps; lia].
    + exists (value_at target (Z.of_nat k)), (value_at target (Z.of_nat (S k))).
      rewrite !Hshow by lia. repeat split.
      apply value_at_mono; [assumption | lia | unfold CountUp.steps; lia].
  - intros k Hk. destruct (decide (k = 60)) as [->|E].
    + exists target. split; [exact Hend | exact (leb_is_number_r _ _ Ht)].
    + exists (value_at target (Z.of_nat k)). rewrite Hshow by lia. split; [reflexivity|].
      apply value_at_le_target; [assumption | unfold CountUp.steps; lia].
Qed.

Lemma countUp_monotone_bounded_exact_witness :
  nonneg (Number.of_Z 7) /\
  CountUp.shown_after (Number.of_Z 7) "+" CountUp.Markup 60 =
    CountUp.Shown (Number.of_Z 7) "+".
Proof.
  assert (H : nonneg (Number.of_Z 7)) by (vm_compute; reflexivity).
  split; [exact H|].
  exact (proj2 (proj2 (countUp_monotone_bounded_exact (Number.of_Z 7) "+" CountUp.Markup H))).
Defined.

(** C10.  For every target and suffix the count-up animation terminates:
    the callback of its interval runs exactly 60 times, the interval is
    registered up to the 60th run and cleared by it, and nothing the element
    shows changes afterwards. *)
Theorem countUp_terminates
    (target : Number.num) (suffix : string) (shown : CountUp.content) (n : nat) :
  CountUp.fired target suffix (60 + n) (CountUp.countUp shown) = 60%nat /\
  (forall k : nat, (k < 60)%nat ->
     CountUp.timer (CountUp.run target suffix k (CountUp.countUp shown)) = true) /\
  CountUp.timer (CountUp.run target suffix (60 + n) (CountUp.countUp shown)) = false /\
  CountUp.run target suffix (60 + n) (CountUp.countUp shown) =
    CountUp.run target suffix 60 (CountUp.countUp shown).
Proof.
  assert (Hstay : CountUp.run target suffix (60 + n) (CountUp.countUp shown) =
                  CountUp.run target suffix 60 (CountUp.countUp shown)).
  { rewrite (Nat.add_comm 60 n), run_add. apply run_cleared. now rewrite run_at_end. }
  split; [|split; [|split]].
  - rewrite fired_add, (fired_cleared _ _ n) by (now rewrite run_at_end).
    rewrite fired_running; [lia | reflexivity | reflexivity |].
    cbn [CountUp.currentStep CountUp.countUp]. unfold CountUp.steps. lia.
  - intros k Hk. now rewrite run_before_end.
  - rewrite Hstay. now rewrite run_at_end.
  - exact Hstay.
Qed.

(** ** 4. The typing effect *)
Section TypeWriterFacts.
Import TypeWriter.

Lemma substring_from_0 (w : jsstring) (n : Z) : substring w 0 n = take (Z.to_nat n) w.
Proof.
  unfold substring, str_length. rewrite Z.max_id.
  rewrite (Z.min_l 0) by lia.
  rewrite (Z.min_l 0) by lia.
  rewrite Z.max_r by lia.
  change (Z.to_nat 0) with O. rewrite drop_0, Z.sub_0_r.
  destruct (Z.le_gt_cases (Z.max n 0) (Z.of_nat (length w))) as [H|H].
  - rewrite Z.min_l by lia. f_equal. lia.
  - rewrite Z.min_r by lia. rewrite Nat2Z.id, !take_ge by lia. reflexivity.
Qed.

Lemma currentWord_lookup tw :
  words tw <> [] ->
  currentWord tw = words tw !! (wordIndex tw mod length (words tw))%nat.
Proof.
  intros Hne. unfold currentWord, rem.
  destruct (Nat.eqb_spec (length (words tw)) 0) as [E|E]; [|reflexivity].
  destruct (words tw); [congruence | discriminate].
Qed.

Lemma currentWord_some tw : words tw <> [] -> is_Some (currentWord tw).
Proof.
  intros Hne. rewrite currentWord_lookup by assumption.
  apply lookup_lt_is_Some_2, Nat.mod_upper_bound.
  destruct (words tw); [congruence | discriminate].
Qed.

Lemma currentWord_none tw : words tw = [] -> currentWord tw = None.
Proof. intros E. unfold currentWord, rem. now rewrite E. Qed.

(** A call of [type()] throws exactly when no word is selected. *)
Lemma type_throws tw : currentWord tw = None -> type tw = Throw TypeError.
Proof. unfold currentWord, type. now intros ->. Qed.

(** What a call that returns leaves behind: the text it wrote is a prefix of
    the word it worked on, and the index moves by at most one word, to an
    empty text. *)
Lemma type_returns tw w :
  currentWord tw = Some w ->
  exists tw1 delay,
    type tw = Ok (tw1, delay) /\
    words tw1 = words tw /\ waitTime tw1 = waitTime tw /\
    textContent tw1 = text tw1 /\
    text tw1 `prefix_of` w /\
    (wordIndex tw1 = wordIndex tw \/ wordIndex tw1 = S (wordIndex tw) /\ text tw1 = []).
Proof.
  unfold currentWord, type. intros ->. rewrite !substring_from_0.
  destruct (isDeleting tw); cbn [negb andb];
    repeat case_bool_decide; eexists _, _; (split; [reflexivity|]); cbn;
    repeat split; auto using prefix_take.
Qed.

Lemma steps_add n m tw :
  steps (n + m) tw =
    match steps n tw with
    | Throw e => Throw e
    | Ok (log1, tw1) =>
        match steps m tw1 with
        | Throw e => Throw e
        | Ok (log2, tw2) => Ok (log1 ++ log2, tw2)
        end
    end.
Proof.
  revert tw. induction n as [|n IH]; intros tw; cbn [Nat.add steps].
  - destruct (steps m tw) as [[log tw2]|e]; reflexivity.
  - destruct (type tw) as [[tw1 delay]|e]; [|reflexivity].
    rewrite IH. destruct (steps n tw1) as [[log1 tw2]|e]; [|reflexivity].
    destruct (steps m tw2) as [[log2 tw3]|e]; reflexivity.
Qed.

(** With a word list that is not empty, every call returns and asks for the
    next one. *)
Lemma steps_total n tw :
  words tw <> [] ->
  exists log tw1,
    steps n tw = Ok (log, tw1) /\ length log = n /\
    words tw1 = words tw /\ waitTime tw1 = waitTime tw.
Proof.
  revert tw. induction n as [|n IH]; intros tw Hne.
  - exists [], tw. repeat split.
  - destruct (currentWord_some tw Hne) as [w Hw].
    destruct (type_returns tw w Hw) as (tw1 & delay & Ht & Hws & Hwt & _).
    destruct (IH tw1) as (log & tw2 & Hs & Hl & Hws2 & Hwt2); [congruence|].
    exists ((textContent tw1, delay) :: log), tw2. cbn [steps]. rewrite Ht, Hs.
    repeat split; cbn; congruence.
Qed.

(** *** One word, from the first character typed to the last one deleted *)

Variables (ws : list jsstring) (wait : Z).

(** The effect while it works on word [i]: it shows [txt]. *)
Definition working (shown txt : jsstring) (del : bool) (i : nat) : t :=
  {| textContent := shown; words := ws; waitTime := wait;
     wordIndex := i; text := txt; isDeleting := del |}.

Lemma take_all_iff (w : jsstring) k : take k w = w <-> length w <= k.
Proof.
  split; [|apply take_ge].
  intros E. apply (f_equal length) in E. rewrite length_take in E. lia.
Qed.

Lemma take_none_iff (w : jsstring) k : take k w = [] <-> k = O \/ w = [].
Proof.
  split; [apply take_nil_inv|]. intros [->| ->]; [apply take_0 | apply take_nil].
Qed.

Section Word.
Variables (i : nat) (w : jsstring).
Hypothesis Hw : index ws (rem i (length ws)) = Some w.

Lemma type_forward shown k :
  S k < length w ->
  type (working shown (take k w) false i) =
    Ok (working (take (S k) w) (take (S k) w) false i, 100%Z).
Proof.
  intros Hk. unfold type, working. cbn [words wordIndex isDeleting text waitTime].
  rewrite Hw, substring_from_0. unfold str_length. rewrite length_take_le by lia.
  replace (Z.to_nat (Z.of_nat k + 1)) with (S k) by lia. cbn [negb andb].
  rewrite bool_decide_eq_false_2; [reflexivity|]. rewrite take_all_iff. lia.
Qed.

Lemma type_complete shown :
  type (working shown (take (length w - 1) w) false i) = Ok (working w w true i, wait).
Proof.
  unfold type, working. cbn [words wordIndex isDeleting text waitTime].
  rewrite Hw, substring_from_0. unfold str_length. rewrite length_take_le by lia.
  assert (E : take (Z.to_nat (Z.of_nat (length w - 1) + 1)) w = w)
    by (apply take_all_iff; lia).
  rewrite E. cbn [negb andb]. rewrite bool_decide_eq_true_2; reflexivity.
Qed.

Lemma type_backward shown k :
  2 <= k <= length w ->
  type (working shown (take k w) true i) =
    Ok (working (take (k - 1) w) (take (k - 1) w) true i, 50%Z).
Proof.
  intros Hk. unfold type, working. cbn [words wordIndex isDeleting text waitTime].
  rewrite Hw, substring_from_0. unfold str_length. rewrite length_take_le by lia.
  replace (Z.to_nat (Z.of_nat k - 1)) with (k - 1) by lia. cbn [negb andb].
  rewrite bool_decide_eq_false_2; [reflexivity|]. rewrite take_none_iff.
  intros [?| ->]; [lia | cbn in Hk; lia].
Qed.

Lemma type_erased shown k :
  k <= 1 -> k <= length w ->
  type (working shown (take k w) true i) = Ok (working [] [] false (S i), 400%Z).
Proof.
  intros Hk Hl. unfold type, working. cbn [words wordIndex isDeleting text waitTime].
  rewrite Hw, substring_from_0. unfold str_length. rewrite length_take_le by lia.
  replace (Z.to_nat (Z.of_nat k - 1)) with O by lia. rewrite take_0. cbn [negb andb].
  rewrite bool_decide_eq_true_2; reflexivity.
Qed.

Lemma steps_forward j : forall k shown,
  k + j <= length w - 1 ->
  steps j (working shown (take k w) false i) =
    Ok (map (fun m => (take m w, 100%Z)) (seq (S k) j),
        working (match j with O => shown | S _ => take (k + j) w end) (take (k + j) w) false i).
Proof.
  induction j as [|j IH]; intros k shown Hk.
  - cbn [steps map seq]. now rewrite Nat.add_0_r.
  - cbn [steps]. rewrite type_forward by lia. rewrite IH by lia.
    cbn [textContent working map seq]. replace (S k + j) with (k + S j) by lia.
    destruct j; [|reflexivity]. now replace (k + 1) with (S k) by lia.
Qed.

Lemma steps_backward j : forall k shown,
  j <= k - 1 -> k <= length w ->
  steps j (working shown (take k w) true i) =
    Ok (map (fun m => (take m w, 50%Z)) (rev (seq (k - j) j)),
        working (match j with O => shown | S _ => take (k - j) w end) (take (k - j) w) true i).
Proof.
  induction j as [|j IH]; intros k shown Hj Hk.
  - cbn [steps map seq rev]. now rewrite Nat.sub_0_r.
  - cbn [steps]. rewrite type_backward by lia. rewrite IH by lia.
    cbn [textContent working]. rewrite seq_S, rev_app_distr. cbn [rev app map].
    replace (k - 1 - j) with (k - S j) by lia.
    replace (k - S j + j) with (k - 1) by lia.
    destruct j; reflexivity.
Qed.

(** The four phases of word [i], and where they leave the effect. *)
Definition word_log : list (jsstring * Z) :=
  map (fun m => (take m w, 100%Z)) (seq 1 (length w - 1))
  ++ [(w, wait)]
  ++ map (fun m => (take m w, 50%Z)) (rev (seq 1 (length w - 1)))
  ++ [([], 400%Z)].

Lemma word_cycle shown :
  steps ((length w - 1) + 1 + (length w - 1) + 1) (working shown [] false i) =
    Ok (word_log, working [] [] false (S i)).
Proof.
  rewrite !steps_add.
  change (@nil ascii) with (take 0 w) at 1.
  rewrite steps_forward by lia. cbn [Nat.add].
  cbn [steps]. rewrite type_complete.
  cbn [textContent working].
  replace (working w w true i) with (working w (take (length w) w) true i)
    by (now rewrite take_ge).
  rewrite steps_backward by lia. cbn [steps].
  rewrite type_erased by lia.
  cbn [textContent working]. unfold word_log. rewrite <- !app_assoc.
  replace (length w - (length w - 1)) with (S O - (S O - length w)) by lia.
  destruct (length w) as [|[|n]]; cbn [Nat.sub]; rewrite ?take_0; reflexivity.
Qed.

End Word.

End TypeWriterFacts.

Lemma mod_succ_wrap (i len : nat) :
  len <> O ->
  (S i mod len)%nat = if decide ((i mod len)%nat = len - 1) then O else S (i mod len).
Proof.
  intros Hlen. pose proof (Nat.div_mod_eq i len) as E.
  pose proof (Nat.mod_upper_bound i len Hlen) as B.
  destruct (decide ((i mod len)%nat = len - 1)) as [Hr|Hr]; symmetry.
  - apply (Nat.mod_unique _ _ (S (i / len))); lia.
  - apply (Nat.mod_unique _ _ (i / len)); lia.
Qed.

(** Every word is reached, one after the other, each with an empty text. *)
Lemma every_word_reached (ws : list TypeWriter.jsstring) (wait : Z)
    (markup : TypeWriter.jsstring) (i : nat) :
  ws <> [] ->
  exists n log,
    TypeWriter.steps n (TypeWriter.fresh markup ws wait 0) =
      Ok (log, TypeWriter.fresh [] ws wait (S i)).
Proof.
  intros Hne. induction i as [|i (n & log & IH)].
  - destruct (currentWord_some (TypeWriter.fresh markup ws wait 0) Hne) as [w Hw].
    eexists _, _. exact (word_cycle ws wait 0 w Hw markup).
  - destruct (currentWord_some (TypeWriter.fresh [] ws wait (S i)) Hne) as [w Hw].
    eexists (n + _), _. rewrite steps_add, IH.
    change (TypeWriter.fresh [] ws wait (S i)) with (working ws wait [] [] false (S i)).
    rewrite (word_cycle ws wait (S i) w Hw). reflexivity.
Qed.

(** C2.  With a word list that is not empty, after every call of [type()]
    the text on the page is a prefix of the current word
    [words[wordIndex % words.length]]; a call leaves the index where it is
    or moves it to the next one, with nothing typed yet; every index is
    reached; and the word of the next index is the next word of the list,
    the first one after the last. *)
Theorem typing_prefix_in_order
    (ws : list TypeWriter.jsstring) (wait : Z) (markup : TypeWriter.jsstring) :
  ws <> [] ->
  (forall n, exists log tw w,
     TypeWriter.steps (S n) (TypeWriter.fresh markup ws wait 0) = Ok (log, tw) /\
     ws !! (TypeWriter.wordIndex tw mod length ws)%nat = Some w /\
     TypeWriter.textContent tw `prefix_of` w) /\
  (forall tw w,
     TypeWriter.words tw = ws ->
     ws !! (TypeWriter.wordIndex tw mod length ws)%nat = Some w ->
     exists tw1 delay,
       TypeWriter.type tw = Ok (tw1, delay) /\
       TypeWriter.textContent tw1 `prefix_of` w /\
       (TypeWriter.wordIndex tw1 = TypeWriter.wordIndex tw \/
        TypeWriter.wordIndex tw1 = S (TypeWriter.wordIndex tw) /\
        TypeWriter.textContent tw1 = [])) /\
  (forall i, exists n log tw,
     TypeWriter.steps n (TypeWriter.fresh markup ws wait 0) = Ok (log, tw) /\
     TypeWriter.wordIndex tw = i /\ TypeWriter.text tw = [] /\
     TypeWriter.isDeleting tw = false) /\
  (forall i,
     (S i mod length ws)%nat =
       if decide ((i mod length ws)%nat = length ws - 1) then O else S (i mod length ws)).
Proof.
  intros Hne.
  assert (Hstep : forall tw w,
            TypeWriter.words tw = ws ->
            ws !! (TypeWriter.wordIndex tw mod length ws)%nat = Some w ->
            exists tw1 delay,
              TypeWriter.type tw = Ok (tw1, delay) /\
              TypeWriter.words tw1 = ws /\
              TypeWriter.textContent tw1 `prefix_of` w /\
              (TypeWriter.wordIndex tw1 = TypeWriter.wordIndex tw \/
               TypeWriter.wordIndex tw1 = S (TypeWriter.wordIndex tw) /\
               TypeWriter.textContent tw1 = [])).
  { intros tw w Hws Hw.
    assert (Hcw : TypeWriter.currentWord tw = Some w)
      by (rewrite currentWord_lookup, Hws by congruence; exact Hw).
    destruct (type_returns tw w Hcw) as (tw1 & delay & Ht & Hws1 & _ & Htc & Hp & Hi).
    exists tw1, delay. rewrite Htc. repeat split; [exact Ht | congruence | exact Hp | exact Hi]. }
  split; [|split; [|split]].
  - intros n.
    destruct (steps_total n (TypeWriter.fresh markup ws wait 0) Hne)
      as (log & tw & Hs & _ & Hws & _).
    cbn [TypeWriter.words TypeWriter.fresh] in Hws.
    assert (Hin : is_Some (ws !! (TypeWriter.wordIndex tw mod length ws)%nat)).
    { apply lookup_lt_is_Some_2, Nat.mod_upper_bound. destruct ws; [congruence | discriminate]. }
    destruct Hin as [w Hw].
    destruct (Hstep tw w Hws Hw) as (tw1 & delay & Ht & Hws1 & Hp & Hi).
    assert (Hin1 : is_Some (ws !! (TypeWriter.wordIndex tw1 mod length ws)%nat)).
    { apply lookup_lt_is_Some_2, Nat.mod_upper_bound. destruct ws; [congruence | discriminate]. }
    destruct Hin1 as [w1 Hw1].
    exists (log ++ [(TypeWriter.textContent tw1, delay)]), tw1, w1.
    split; [|split; [exact Hw1|]].
    + replace (S n) with (n + 1)%nat by lia. rewrite steps_add, Hs.
      cbn [TypeWriter.steps]. now rewrite Ht.
    + destruct Hi as [Hi|[_ ->]]; [|apply prefix_nil].
      rewrite Hi, Hw in Hw1. injection Hw1 as <-. exact Hp.
  - intros tw w Hws Hw. destruct (Hstep tw w Hws Hw) as (tw1 & delay & Ht & _ & Hp & Hi).
    now exists tw1, delay.
  - intros [|i].
    + exists O, [], (TypeWriter.fresh markup ws wait 0). repeat split.
    + destruct (every_word_reached ws wait markup i Hne) as (n & log & Hs).
      exists n, log, (TypeWriter.fresh [] ws wait (S i)). repeat split. exact Hs.
  - intros i. apply mod_succ_wrap. destruct ws; [congruence | discriminate].
Qed.

Lemma typing_prefix_in_order_witness :
  [list_ascii_of_string "Hi"; list_ascii_of_string "Yo"] <> [] /\
  exists log tw w,
    TypeWriter.steps 1
      (TypeWriter.fresh [] [list_ascii_of_string "Hi"; list_ascii_of_string "Yo"] 2000 0) =
      Ok (log, tw) /\
    [list_ascii_of_string "Hi"; list_ascii_of_string "Yo"]
      !! (TypeWriter.wordIndex tw mod 2)%nat = Some w /\
    TypeWriter.textContent tw `prefix_of` w.
Proof.
  assert (H : [list_ascii_of_string "Hi"; list_ascii_of_string "Yo"] <> []) by discriminate.
  split; [exact H|].
  exact (proj1 (typing_prefix_in_order
                  [list_ascii_of_string "Hi"; list_ascii_of_string "Yo"] 2000 [] H) O).
Defined.

(** C9.  A call of [type()] returns a next state exactly when the word list
    is not empty.  With an empty list the index [wordIndex % 0] is NaN, it
    selects no word, and the first call, made by the constructor, throws. *)
Theorem type_succeeds_iff_words (tw : TypeWriter.t) :
  (succeeds (TypeWriter.type tw) <-> TypeWriter.words tw <> []) /\
  (TypeWriter.words tw = [] ->
     TypeWriter.rem (TypeWriter.wordIndex tw) (length (TypeWriter.words tw)) = None /\
     TypeWriter.currentWord tw = None /\
     TypeWriter.type tw = Throw TypeError) /\
  (forall markup wait, TypeWriter.construct markup [] wait = Throw TypeError).
Proof.
  split; [split|split].
  - intros [r Hr] Hnil. rewrite type_throws in Hr by now apply currentWord_none. discriminate.
  - intros Hne. destruct (currentWord_some tw Hne) as [w Hw].
    destruct (type_returns tw w Hw) as (tw1 & delay & Ht & _). now exists (tw1, delay).
  - intros Hnil. repeat split.
    + now rewrite Hnil.
    + now apply currentWord_none.
    + now apply type_throws, currentWord_none.
  - reflexivity.
Qed.

(** C5.  With a word list that is not empty and the [waitTime] of 2000 the
    page constructs the effect with, every call of [type()] returns and asks
    for the next one, so the effect never ends; and word [i] of the cycle
    takes four phases: one more character per call, 100ms apart; the whole
    word, then 2000ms; one character less per call, 50ms apart; the empty
    text, then 400ms, with the effect left at word [i + 1]. *)
Theorem typing_four_phase_cycle
    (ws : list TypeWriter.jsstring) (markup : TypeWriter.jsstring) :
  ws <> [] ->
  (forall n, exists log tw,
     TypeWriter.steps n (TypeWriter.fresh markup ws 2000 0) = Ok (log, tw) /\
     length log = n) /\
  (forall i shown, exists w,
     ws !! (i mod length ws)%nat = Some w /\
     TypeWriter.steps (2 * Nat.max 1 (length w)) (TypeWriter.fresh shown ws 2000 i) =
       Ok (map (fun m => (take m w, 100%Z)) (seq 1 (length w - 1))
             ++ [(w, 2000%Z)]
             ++ map (fun m => (take m w, 50%Z)) (rev (seq 1 (length w - 1)))
             ++ [([], 400%Z)],
           TypeWriter.fresh [] ws 2000 (S i))).
Proof.
  intros Hne. split.
  - intros n.
    destruct (steps_total n (TypeWriter.fresh markup ws 2000 0) Hne) as (log & tw & Hs & Hl & _).
    now exists log, tw.
  - intros i shown.
    destruct (currentWord_some (TypeWriter.fresh shown ws 2000 i) Hne) as [w Hw].
    exists w. split.
    + rewrite currentWord_lookup in Hw by exact Hne. exact Hw.
    + replace (2 * Nat.max 1 (length w))%nat
        with ((length w - 1) + 1 + (length w - 1) + 1)%nat by lia.
      exact (word_cycle ws 2000 i w Hw shown).
Qed.

Lemma typing_four_phase_cycle_witness :
  [list_ascii_of_string "Hi"] <> [] /\
  TypeWriter.steps 4 (TypeWriter.fresh [] [list_ascii_of_string "Hi"] 2000 0) =
    Ok ([(list_ascii_of_string "H", 100%Z); (list_ascii_of_string "Hi", 2000%Z);
         (list_ascii_of_string "H", 50%Z); ([], 400%Z)],
        TypeWriter.fresh [] [list_ascii_of_string "Hi"] 2000 1).
Proof.
  assert (H : [list_ascii_of_string "Hi"] <> []) by discriminate.
  split; [exact H|].
  destruct (proj2 (typing_four_phase_cycle [list_ascii_of_string "Hi"] [] H) O [])
    as (w & Hw & Hs).
  injection Hw as <-. exact Hs.
Defined.

(** ** Class lists *)
Section DomFacts.
Import Dom.

Lemma elem_of_add e c d e' c' :
  c' ∈ classList (add e c d) e' <-> (e = e' /\ c' = c) \/ c' ∈ classList d e'.
Proof.
  unfold add, classList. destruct (decide (e = e')) as [->|Hne].
  - rewrite lookup_total_insert_eq. set_solver.
  - rewrite lookup_total_insert_ne by done. naive_solver.
Qed.

Lemma elem_of_remove e c d e' c' :
  c' ∈ classList (remove e c d) e' <-> c' ∈ classList d e' /\ ~ (e = e' /\ c' = c).
Proof.
  unfold remove, classList. destruct (decide (e = e')) as [->|Hne].
  - rewrite lookup_total_insert_eq. set_solver.
  - rewrite lookup_total_insert_ne by done. naive_solver.
Qed.

Lemma elem_of_toggle_force e c (force : bool) d e' c' :
  c' ∈ classList (toggle_force e c force d) e' <->
    if decide (e = e' /\ c' = c) then force = true else c' ∈ classList d e'.
Proof.
  unfold toggle_force. destruct force; rewrite ?elem_of_add, ?elem_of_remove;
    case_decide; naive_solver.
Qed.

Lemma elem_of_toggle e c d e' c' :
  c' <> c -> c' ∈ classList (toggle e c d).1 e' <-> c' ∈ classList d e'.
Proof.
  intros Hne. unfold toggle. destruct (contains d e c); cbn [fst];
    rewrite ?elem_of_add, ?elem_of_remove; naive_solver.
Qed.

Lemma for_each_nil {S : Type} (f : elem -> S -> S) s : for_each f [] s = s.
Proof. reflexivity. Qed.

Lemma for_each_cons {S : Type} (f : elem -> S -> S) n ns s :
  for_each f (n :: ns) s = for_each f ns (f n s).
Proof. reflexivity. Qed.

(** A loop that forces one class on or off, node by node. *)
Lemma elem_of_for_each_toggle_force (cls : string) (f : elem -> bool) nodes :
  forall (d : dom) e c,
    c ∈ classList (for_each (fun n acc => toggle_force n cls (f n) acc) nodes d) e <->
      if decide (c = cls /\ e ∈ nodes) then f e = true else c ∈ classList d e.
Proof.
  induction nodes as [|n ns IH]; intros d e c.
  - rewrite for_each_nil. case_decide as H; [|done]. destruct H as [_ H].
    by apply elem_of_nil in H.
  - rewrite for_each_cons. etrans; [apply IH|].
    destruct (decide (c = cls /\ e ∈ ns)) as [[-> Hin]|Hout].
    + rewrite decide_True by set_solver. done.
    + rewrite elem_of_toggle_force.
      repeat case_decide; try done; set_solver.
Qed.

End DomFacts.

(** ** 1. The navbar on scroll *)

Lemma leb_not_gtb x y : Number.leb x y = true -> Number.gtb x y = false.
Proof.
  destruct x, y; cbn; try congruence. intros H. apply Z.leb_le in H.
  apply Z.ltb_ge. exact H.
Qed.

(** With a navbar the handler returns. *)
Lemma addNavScrollClass_returns (nb : Dom.elem) (scrollY : Number.num) (d : Dom.dom) :
  exists d' : Dom.dom, Navbar.addNavScrollClass (Some nb) scrollY d = Ok d'.
Proof.
  unfold Navbar.addNavScrollClass.
  destruct (Number.gtb scrollY (Number.of_Z 50)); eexists; reflexivity.
Qed.

(** C6.  When the scroll handler has run on a page with a navbar, the
    navbar lacks the class [scrolled] if the vertical offset is at most 50
    pixels, and has it if the offset is greater than 50. *)
Theorem navbar_scrolled_past_50 (nb : Dom.elem) (scrollY : Number.num) (d : Dom.dom) :
  exists d' : Dom.dom,
    Navbar.addNavScrollClass (Some nb) scrollY d = Ok d' /\
    (Number.leb scrollY (Number.of_Z 50) = true -> "scrolled"%string ∉ Dom.classList d' nb) /\
    (Number.gtb scrollY (Number.of_Z 50) = true -> "scrolled"%string ∈ Dom.classList d' nb).
Proof.
  unfold Navbar.addNavScrollClass.
  destruct (Number.gtb scrollY (Number.of_Z 50)) eqn:Hgt; eexists; (split; [reflexivity|]).
  - split; [|intros _; apply elem_of_add; by left].
    intros Hle. apply leb_not_gtb in Hle. congruence.
  - split; [|discriminate].
    intros _. rewrite elem_of_remove. naive_solver.
Qed.

(** ** 7. The project filter *)

(** The class lists after a click on [btn]. *)
Lemma elem_of_filter_click
    (filterButtons projectCards : list Dom.elem)
    (data_filter data_category : Dom.elem -> option string)
    (btn : Dom.elem) (d : Dom.dom) e c :
  c ∈ Dom.classList
        (Filter.click filterButtons projectCards data_filter data_category btn d) e
  <-> if decide (c = "hidden"%string /\ e ∈ projectCards)
      then negb (bool_decide (data_filter btn = Some "all"%string)
                 || bool_decide (data_category e = data_filter btn)) = true
      else if decide (e = btn /\ c = "active"%string) then True
      else if decide (c = "active"%string /\ e ∈ filterButtons) then False
      else c ∈ Dom.classList d e.
Proof.
  unfold Filter.click.
  etrans; [apply (elem_of_for_each_toggle_force "hidden"
                    (fun card => negb (bool_decide (data_filter btn = Some "all"%string)
                                       || bool_decide (data_category card = data_filter btn))))|].
  case_decide as Hh; [done|].
  rewrite elem_of_add.
  case_decide as Hb; [naive_solver|].
  etrans.
  { apply or_iff_compat_l.
    apply (elem_of_for_each_toggle_force "active" (fun _ => false)). }
  case_decide; naive_solver.
Qed.

(** C4.  After a click on the filter button [btn], that button is active
    and no other filter button is; with the filter value ["all"] every
    project card is visible, and with any other value a project card is
    visible exactly when its category is that value. *)
Theorem filter_click_shows_matching
    (filterButtons projectCards : list Dom.elem)
    (data_filter data_category : Dom.elem -> option string)
    (btn : Dom.elem) (d : Dom.dom) :
  ("active"%string ∈
     Dom.classList
       (Filter.click filterButtons projectCards data_filter data_category btn d) btn) /\
  (forall b, b ∈ filterButtons -> b <> btn ->
     "active"%string ∉
       Dom.classList
         (Filter.click filterButtons projectCards data_filter data_category btn d) b) /\
  (data_filter btn = Some "all"%string ->
   forall card, card ∈ projectCards ->
     Filter.visible
       (Filter.click filterButtons projectCards data_filter data_category btn d) card) /\
  (data_filter btn <> Some "all"%string ->
   forall card, card ∈ projectCards ->
     Filter.visible
       (Filter.click filterButtons projectCards data_filter data_category btn d) card
     <-> data_category card = data_filter btn).
Proof.
  pose (shown := fun card : Dom.elem =>
         bool_decide (data_filter btn = Some "all"%string)
         || bool_decide (data_category card = data_filter btn)).
  pose proof (elem_of_filter_click filterButtons projectCards data_filter data_category btn d)
    as Hclick.
  fold shown in Hclick.
  unfold Filter.visible. repeat split.
  - apply Hclick. rewrite decide_False by (intros [? _]; discriminate).
    by rewrite decide_True.
  - intros b Hb Hne. rewrite Hclick.
    rewrite decide_False by (intros [? _]; discriminate).
    rewrite decide_False by naive_solver. rewrite decide_True by done. tauto.
  - intros Hall card Hcard. rewrite Hclick, decide_True by done.
    unfold shown. rewrite bool_decide_eq_true_2 by done. cbn. discriminate.
  - intros Hvis. rewrite Hclick, decide_True in Hvis by done.
    apply not_true_is_false, negb_false_iff in Hvis. unfold shown in Hvis.
    rewrite bool_decide_eq_false_2 in Hvis by done. cbn in Hvis.
    by apply bool_decide_eq_true_1 in Hvis.
  - intros Hcat. rewrite Hclick, decide_True by done. unfold shown.
    rewrite (bool_decide_eq_true_2 (data_category card = data_filter btn)) by done.
    rewrite orb_true_r. cbn. discriminate.
Qed.

Lemma filter_click_shows_matching_witness :
  (if decide (2 = 1) then Some "all"%string else Some "web"%string) <> Some "all"%string /\
  (Filter.visible
     (Filter.click [1; 2] [10; 11]
        (fun b => if decide (b = 1) then Some "all"%string else Some "web"%string)
        (fun c => if decide (c = 10) then Some "web"%string else Some "app"%string)
        2 ∅) 10 /\
   ~ Filter.visible
     (Filter.click [1; 2] [10; 11]
        (fun b => if decide (b = 1) then Some "all"%string else Some "web"%string)
        (fun c => if decide (c = 10) then Some "web"%string else Some "app"%string)
        2 ∅) 11).
Proof.
  assert (Hf : (if decide (2 = 1) then Some "all"%string else Some "web"%string)
               <> Some "all"%string) by (vm_compute; discriminate).
  split; [exact Hf|].
  pose proof (proj2 (proj2 (proj2 (filter_click_shows_matching [1; 2] [10; 11]
        (fun b => if decide (b = 1) then Some "all"%string else Some "web"%string)
        (fun c => if decide (c = 10) then Some "web"%string else Some "app"%string)
        2 ∅))) Hf) as H.
  split.
  - apply (H 10); [set_solver | reflexivity].
  - intros Hv. apply (H 11) in Hv; [discriminate | set_solver].
Defined.

Lemma navbar_scrolled_past_50_witness :
  Number.gtb (Number.of_Z 51) (Number.of_Z 50) = true /\
  exists d' : Dom.dom,
    Navbar.addNavScrollClass (Some 0) (Number.of_Z 51) ∅ = Ok d' /\
    "scrolled"%string ∈ Dom.classList d' 0.
Proof.
  assert (H : Number.gtb (Number.of_Z 51) (Number.of_Z 50) = true) by (vm_compute; reflexivity).
  split; [exact H|].
  destruct (navbar_scrolled_past_50 0 (Number.of_Z 51) ∅) as (d' & Hd & _ & Hin).
  exists d'. split; [exact Hd | exact (Hin H)].
Defined.

(** ** 3. Scroll reveal *)
Section RevealFacts.
Import Dom Observers Page.

Definition intersects (entries : list entry) (e : elem) : Prop :=
  exists en, en ∈ entries /\ target en = e /\ isIntersecting en = true.

Lemma intersects_nil e : ~ intersects [] e.
Proof. intros (en & Hin & _). by apply elem_of_nil in Hin. Qed.

Lemma intersects_cons en entries e :
  intersects (en :: entries) e <->
    (target en = e /\ isIntersecting en = true) \/ intersects entries e.
Proof.
  unfold intersects. split.
  - intros (en' & Hin & Ht & Hi). apply elem_of_cons in Hin as [->|Hin]; [by left|].
    right. by exists en'.
  - intros [[Ht Hi]|(en' & Hin & Ht & Hi)].
    + exists en. split; [apply elem_of_cons; by left | done].
    + exists en'. split; [apply elem_of_cons; by right | done].
Qed.

(** What the reveal callback leaves: the class lists, and the targets still
    watched. *)
Lemma reveal_callback_classes entries : forall (s : dom * gset elem) e c,
  c ∈ classList (reveal_callback entries s).1 e <->
    (c = "revealed"%string /\ intersects entries e) \/ c ∈ classList s.1 e.
Proof.
  unfold reveal_callback. induction entries as [|en entries IH]; intros s e c; cbn [foldl].
  - pose proof (intersects_nil e). naive_solver.
  - rewrite IH, intersects_cons. unfold reveal_entry.
    destruct (isIntersecting en); cbn [negb fst]; [rewrite elem_of_add|]; naive_solver.
Qed.

Lemma reveal_callback_watched entries : forall (s : dom * gset elem) e,
  e ∈ (reveal_callback entries s).2 <-> e ∈ s.2 /\ ~ intersects entries e.
Proof.
  unfold reveal_callback. induction entries as [|en entries IH]; intros s e; cbn [foldl].
  - pose proof (intersects_nil e). naive_solver.
  - rewrite IH, intersects_cons. unfold reveal_entry.
    destruct (isIntersecting en); cbn [negb snd]; [rewrite elem_of_difference|];
      set_solver.
Qed.

Lemma active_section_callback_other links href id_of entries : forall (d : dom) e c,
  c <> "active"%string ->
  c ∈ classList (active_section_callback links href id_of entries d) e <-> c ∈ classList d e.
Proof.
  unfold active_section_callback.
  induction entries as [|en entries IH]; intros d e c Hc; cbn [foldl]; [done|].
  rewrite IH by done. unfold active_section_entry.
  destruct (isIntersecting en); cbn [negb]; [|done].
  etrans; [apply (elem_of_for_each_toggle_force "active"
                    (fun link => bool_decide (href link = Some ("#" ++ id_of (target en))%string)))|].
  rewrite decide_False by naive_solver. done.
Qed.

(** No listener takes [revealed] off a class list. *)
Lemma handle_keeps_revealed pg ev s e :
  "revealed"%string ∈ classList (classes s) e ->
  "revealed"%string ∈ classList (classes (handle pg ev s)) e.
Proof.
  intros Hr. destruct ev; cbn [handle].
  - cbn [classes with_classes].
    assert (Hnav : "revealed"%string ∈
              classList
                match Navbar.addNavScrollClass (navbar pg) scrollY (classes s) with
                | Ok d' => d'
                | Throw _ => classes s
                end e).
    { unfold Navbar.addNavScrollClass.
      destruct (Number.gtb scrollY (Number.of_Z 50)), (navbar pg); try done.
      - apply elem_of_add. by right.
      - apply elem_of_remove. split; [done | intros [_ ?]; discriminate]. }
    destruct (backToTopBtn pg); [|done].
    unfold BackToTop.scroll. apply elem_of_toggle_force.
    rewrite decide_False by (intros [_ ?]; discriminate). done.
  - destruct (hamburger pg), (navMenu pg); try done.
    unfold Navbar.hamburger_click. cbn [fst classes].
    destruct (toggle e1 "open" (classes s)) as [d1 isOpen] eqn:Ht. cbn [fst classes].
    apply elem_of_toggle_force. rewrite decide_False by (intros [_ ?]; discriminate).
    replace d1 with (toggle e1 "open" (classes s)).1 by (by rewrite Ht).
    by apply elem_of_toggle.
  - destruct (hamburger pg), (navMenu pg); try done.
    unfold Navbar.nav_link_click. cbn [fst classes].
    rewrite !elem_of_remove. repeat split; try done; intros [_ ?]; discriminate.
  - cbn [classes with_classes]. by apply active_section_callback_other.
  - cbn [classes fst]. apply reveal_callback_classes. by right.
  - done.
  - case_bool_decide; [|done]. cbn [classes with_classes].
    apply elem_of_filter_click.
    rewrite !decide_False by (intros [? _]; discriminate).
    rewrite decide_False by (intros [_ ?]; discriminate). done.
Qed.

Lemma handle_keeps_unwatched pg ev s e :
  e ∉ watched_reveal s -> e ∉ watched_reveal (handle pg ev s).
Proof.
  intros Hw. destruct ev; cbn [handle]; try done.
  - destruct (hamburger pg), (navMenu pg); done.
  - destruct (hamburger pg), (navMenu pg); done.
  - cbn [watched_reveal]. rewrite reveal_callback_watched. naive_solver.
  - case_bool_decide; done.
Qed.

Lemma handle_all_cons pg ev evs s :
  handle_all pg (ev :: evs) s = handle_all pg evs (handle pg ev s).
Proof. reflexivity. Qed.

Lemma handle_all_keeps_revealed pg evs : forall s e,
  "revealed"%string ∈ classList (classes s) e ->
  "revealed"%string ∈ classList (classes (handle_all pg evs s)) e.
Proof.
  induction evs as [|ev evs IH]; intros s e Hr; [done|].
  rewrite handle_all_cons. by apply IH, handle_keeps_revealed.
Qed.

Lemma reveal_transitions_revealed pg e evs : forall s,
  "revealed"%string ∈ classList (classes s) e -> reveal_transitions pg e evs s = O.
Proof.
  induction evs as [|ev evs IH]; intros s Hr; [done|].
  cbn [reveal_transitions]. rewrite IH by (by apply handle_keeps_revealed).
  unfold revealed at 1, contains. rewrite bool_decide_eq_true_2 by done. done.
Qed.

Lemma reveal_transitions_le_1 pg e evs : forall s, reveal_transitions pg e evs s <= 1.
Proof.
  induction evs as [|ev evs IH]; intros s; cbn [reveal_transitions]; [lia|].
  destruct (negb (revealed s e) && revealed (handle pg ev s) e) eqn:Ht.
  - apply andb_true_iff in Ht as [_ Ht]. unfold revealed, contains in Ht.
    apply bool_decide_eq_true_1 in Ht. rewrite reveal_transitions_revealed by done. lia.
  - specialize (IH (handle pg ev s)). lia.
Qed.

End RevealFacts.

(** C8.  An element that the reveal observer reports as intersecting is
    marked [revealed] and is no longer watched; whatever scroll, click and
    intersection events follow, it stays revealed and is not watched again;
    so along any sequence of events it becomes revealed at most once.
    (The browser decides when an entry is intersecting, from the
    observer's threshold of 0.1 and its root margin.) *)
Theorem reveal_once_irreversible (pg : Page.page) (e : Dom.elem) :
  (forall entries s,
     intersects entries e ->
     "revealed"%string ∈
       Dom.classList (Page.classes (Page.handle pg (Page.RevealIntersect entries) s)) e /\
     e ∉ Page.watched_reveal (Page.handle pg (Page.RevealIntersect entries) s)) /\
  (forall evs s,
     "revealed"%string ∈ Dom.classList (Page.classes s) e ->
     "revealed"%string ∈ Dom.classList (Page.classes (Page.handle_all pg evs s)) e) /\
  (forall evs s,
     e ∉ Page.watched_reveal s -> e ∉ Page.watched_reveal (Page.handle_all pg evs s)) /\
  (forall evs s, Page.reveal_transitions pg e evs s <= 1).
Proof.
  repeat split.
  - cbn [Page.handle Page.classes fst]. apply reveal_callback_classes. by left.
  - cbn [Page.handle Page.watched_reveal]. rewrite reveal_callback_watched. naive_solver.
  - intros evs s. apply handle_all_keeps_revealed.
  - intros evs. induction evs as [|ev evs IH]; intros s Hw; [done|].
    rewrite handle_all_cons. by apply IH, handle_keeps_unwatched.
  - intros evs s. apply reveal_transitions_le_1.
Qed.

(** ** 8. The contact form *)
Section FormFacts.
Import Form.
Local Open Scope Z_scope.

Lemma advance_before_due (f : form) (t0 due dt : Z) (c : closure) :
  t0 + dt < due ->
  advance dt {| now := t0; contactForm := f; timeouts := [(due, c)] |} =
    {| now := t0 + dt; contactForm := f; timeouts := [(due, c)] |}.
Proof.
  intros Hdt. unfold advance. cbn [now contactForm timeouts].
  rewrite !filter_cons, !filter_nil. cbn [fst].
  destruct (decide (due <= t0 + dt)); [lia|].
  destruct (decide (~ due <= t0 + dt)); [reflexivity | tauto].
Qed.

(** The timeout set last runs last. *)
Lemma advance_when_due (f : form) (t0 due dt : Z) (c : closure) ts :
  due <= t0 + dt ->
  contactForm (advance dt {| now := t0; contactForm := f; timeouts := ts ++ [(due, c)] |}) =
    run_closure c
      (foldl (fun f p => run_closure p.2 f) f (filter (fun p => p.1 <= t0 + dt) ts)).
Proof.
  intros Hdt. unfold advance. cbn [now contactForm timeouts].
  rewrite filter_app, filter_cons, filter_nil. cbn [fst].
  destruct (decide (due <= t0 + dt)); [|lia].
  now rewrite foldl_snoc.
Qed.

Lemma reset_reset (fs : list field) : reset (reset fs) = reset fs.
Proof. unfold reset. rewrite map_map. reflexivity. Qed.

Lemma run_all_button (ps : list (Z * closure)) : forall f,
  is_Some (submitBtn f) ->
  is_Some (submitBtn (foldl (fun f p => run_closure p.2 f) f ps)).
Proof.
  induction ps as [|[t c] ps IH]; intros f Hf; [exact Hf|].
  cbn [foldl snd]. apply IH. destruct c, Hf as [b Hb]. cbn. rewrite Hb. now eexists.
Qed.

Lemma run_all_reset (ps : list (Z * closure)) : forall f,
  reset (fields (foldl (fun f p => run_closure p.2 f) f ps)) = reset (fields f).
Proof.
  induction ps as [|[t c] ps IH]; intros f; [reflexivity|].
  cbn [foldl snd]. rewrite IH. destruct c. cbn. apply reset_reset.
Qed.

(** Where the timeout of a submission leaves the form, whatever ran before
    it. *)
Lemma restored (f : form) (label : string) (ps : list (Z * closure)) :
  is_Some (submitBtn f) ->
  run_closure (Restore label) (foldl (fun f p => run_closure p.2 f) f ps) =
    {| fields := reset (fields f);
       submitBtn := Some {| innerHTML := label; background := ""; disabled := false |} |}.
Proof.
  intros Hf. destruct (run_all_button ps f Hf) as [b Hb].
  cbn [run_closure]. rewrite run_all_reset, Hb. reflexivity.
Qed.

Lemma reset_clears (fs : list field) :
  Forall (fun f => defaultValue f = ""%string) fs ->
  Forall (fun f => value f = ""%string) (reset fs).
Proof.
  unfold reset. induction 1 as [|f fs Hf _ IH]; cbn [map]; constructor; auto.
Qed.

End FormFacts.

(** A form whose submit button carries an inline background of its own, and
    whose field has a default value. *)
Definition styled_form : Form.state :=
  {| Form.now := 0;
     Form.contactForm :=
       {| Form.fields := [{| Form.value := "hello"; Form.defaultValue := "Your message" |}];
          Form.submitBtn :=
            Some {| Form.innerHTML := "Send"; Form.background := "red";
                    Form.disabled := false |} |};
     Form.timeouts := [] |}.

(** C7, as stated, fails on [styled_form]: 2500ms after the submission the
    button has its label back and is enabled, but its inline background is
    empty, not the original ["red"], and the field holds its default value,
    not the empty string. *)
Lemma submit_restore_counterexample :
  exists s1,
    Form.submit styled_form = (true, Ok s1) /\
    Form.submitBtn (Form.contactForm (Form.advance 2500 s1)) =
      Some {| Form.innerHTML := "Send"; Form.background := ""; Form.disabled := false |} /\
    Form.submitBtn (Form.contactForm (Form.advance 2500 s1)) <>
      Form.submitBtn (Form.contactForm styled_form) /\
    Form.fields (Form.contactForm (Form.advance 2500 s1)) =
      [{| Form.value := "Your message"; Form.defaultValue := "Your message" |}].
Proof.
  eexists. split; [reflexivity|].
  vm_compute. repeat split. discriminate.
Qed.

(** C7, amended.  For every submission of a contact form that has a submit
    button, whatever its fields hold: the default action is suppressed; at
    once the button is disabled and shows the sent label and background;
    with no timeout of an earlier submission pending, nothing changes before
    2500ms have passed; once they have, the button is enabled, has its
    original label and an empty inline background, and the form is reset to
    its default values.  So the button is as it was when it had no inline
    background, and the fields are empty when their defaults are. *)
Theorem submit_feedback (s0 : Form.state) (b : Form.button) :
  Form.submitBtn (Form.contactForm s0) = Some b ->
  exists s1,
    Form.submit s0 = (true, Ok s1) /\
    Form.submitBtn (Form.contactForm s1) =
      Some {| Form.innerHTML := Form.sent_label; Form.background := Form.sent_background;
              Form.disabled := true |} /\
    Form.fields (Form.contactForm s1) = Form.fields (Form.contactForm s0) /\
    (Form.timeouts s0 = [] ->
     forall dt, (0 <= dt < 2500)%Z ->
       Form.contactForm (Form.advance dt s1) = Form.contactForm s1) /\
    (forall dt, (2500 <= dt)%Z ->
       Form.submitBtn (Form.contactForm (Form.advance dt s1)) =
         Some {| Form.innerHTML := Form.innerHTML b; Form.background := "";
                 Form.disabled := false |} /\
       Form.fields (Form.contactForm (Form.advance dt s1)) =
         Form.reset (Form.fields (Form.contactForm s0))) /\
    (Form.background b = ""%string -> Form.disabled b = false ->
       Form.submitBtn (Form.contactForm (Form.advance 2500 s1)) = Some b) /\
    (Forall (fun f => Form.defaultValue f = ""%string) (Form.fields (Form.contactForm s0)) ->
       Forall (fun f => Form.value f = ""%string)
         (Form.fields (Form.contactForm (Form.advance 2500 s1)))).
Proof.
  intros Hb. destruct s0 as [t0 [fs sb] ts]. cbn in Hb. subst sb.
  set (f1 := {| Form.fields := fs;
                Form.submitBtn :=
                  Some {| Form.innerHTML := Form.sent_label;
                          Form.background := Form.sent_background;
                          Form.disabled := true |} |}).
  exists {| Form.now := t0; Form.contactForm := f1;
            Form.timeouts := ts ++ [((t0 + 2500)%Z, Form.Restore (Form.innerHTML b))] |}.
  split; [reflexivity|].
  assert (Hdue : forall dt, (2500 <= dt)%Z ->
            Form.contactForm
              (Form.advance dt
                 {| Form.now := t0; Form.contactForm := f1;
                    Form.timeouts :=
                      ts ++ [((t0 + 2500)%Z, Form.Restore (Form.innerHTML b))] |}) =
            {| Form.fields := Form.reset fs;
               Form.submitBtn :=
                 Some {| Form.innerHTML := Form.innerHTML b; Form.background := "";
                         Form.disabled := false |} |}).
  { intros dt Hdt. rewrite advance_when_due by lia. apply restored. now eexists. }
  repeat split.
  - cbn [Form.timeouts]. intros -> dt Hdt. cbn [app].
    now rewrite advance_before_due by lia.
  - now rewrite Hdue.
  - now rewrite Hdue.
  - intros Hbg Hdis. rewrite Hdue by lia. cbn.
    destruct b as [l bg dis]. cbn in *. now subst.
  - intros Hdef. rewrite Hdue by lia. cbn. now apply reset_clears.
Qed.

Lemma submit_feedback_witness :
  Form.submitBtn (Form.contactForm styled_form) =
    Some {| Form.innerHTML := "Send"; Form.background := "red"; Form.disabled := false |} /\
  exists s1,
    Form.submit styled_form = (true, Ok s1) /\
    Form.submitBtn (Form.contactForm s1) =
      Some {| Form.innerHTML := Form.sent_label; Form.background := Form.sent_background;
              Form.disabled := true |}.
Proof.
  split; [reflexivity|].
  destruct (submit_feedback styled_form
              {| Form.innerHTML := "Send"; Form.background := "red"; Form.disabled := false |}
              eq_refl) as (s1 & Hs & Hbtn & _).
  exists s1. split; [exact Hs | exact Hbtn].
Defined.

(** ** Loading the page *)

(** A page that has every element the script looks for, except the navbar. *)
Definition page_without_navbar : Page.page :=
  {| Page.navbar := None;
     Page.hamburger := Some 1;
     Page.navMenu := Some 2;
     Page.navMenuLinks := [3];
     Page.contentSections := [4];
     Page.navAnchorLinks := [3];
     Page.revealElements := [5];
     Page.typedTarget := Some ([], Page.WordArray [list_ascii_of_string "Developer"]);
     Page.statElements := [6];
     Page.backToTopBtn := Some 7;
     Page.filterButtons := [8];
     Page.projectCards := [9];
     Page.contactForm :=
       Some {| Form.fields := [];
               Form.submitBtn :=
                 Some {| Form.innerHTML := "Send"; Form.background := "";
                         Form.disabled := false |} |};
     Page.href := fun _ => Some "#about"%string;
     Page.id_of := fun _ => "about"%string;
     Page.data_filter := fun _ => Some "all"%string;
     Page.data_category := fun _ => Some "web"%string |}.

(** C3 fails on the code: without a navbar the load throws in its first
    statement, and installs nothing of the features whose elements are
    there. *)
Lemma setup_without_navbar_throws :
  Page.setup page_without_navbar Number.zero ∅ = (∅, Page.nothing_installed, Some TypeError).
Proof. vm_compute. reflexivity. Qed.

(** The same on every page without a navbar, whatever else it has. *)
Lemma setup_needs_navbar (pg : Page.page) y d :
  Page.navbar pg = None -> Page.setup pg y d = (d, Page.nothing_installed, Some TypeError).
Proof.
  intros Hnb. unfold Page.setup, Navbar.addNavScrollClass. rewrite Hnb.
  destruct (Number.gtb y (Number.of_Z 50)); reflexivity.
Qed.

(** Two more ways to fail that are no malformed word list: an empty word
    list at load, and a form without [button[type="submit"]] on submit. *)
Lemma setup_with_empty_words_throws (pg : Page.page) (nb : Dom.elem) markup y d :
  Page.navbar pg = Some nb ->
  Page.typedTarget pg = Some (markup, Page.WordArray []) ->
  exists d', Page.setup pg y d = (d', Page.sections_1_to_3 pg, Some TypeError).
Proof.
  intros Hnb Hty. unfold Page.setup. rewrite Hnb, Hty.
  destruct (addNavScrollClass_returns nb y d) as (d' & ->).
  exists d'. reflexivity.
Qed.

Lemma submit_without_button_throws (s : Form.state) :
  Form.submitBtn (Form.contactForm s) = None -> Form.submit s = (true, Throw TypeError).
Proof. intros H. unfold Form.submit. now rewrite H. Qed.

(** What the existence checks do achieve: on a page with a navbar, and a
    typing target, if any, whose word list parses and is not empty, the load
    ends without exception and installs each feature exactly when its
    element is there. *)
Lemma setup_guards (pg : Page.page) (nb : Dom.elem) y d :
  Page.navbar pg = Some nb ->
  (forall markup a, Page.typedTarget pg = Some (markup, a) ->
     exists ws, a = Page.WordArray ws /\ ws <> []) ->
  exists d' i,
    Page.setup pg y d = (d', i, None) /\
    (is_Some (Page.drawer_clicks i) <->
       is_Some (Page.hamburger pg) /\ is_Some (Page.navMenu pg)) /\
    (is_Some (Page.typing i) <-> is_Some (Page.typedTarget pg)) /\
    Page.stats_targets i = Page.statElements pg /\
    Page.scroll_back_to_top i = Page.backToTopBtn pg /\
    Page.filter_clicks i = Page.filterButtons pg /\
    (Page.form_submit i = true <-> is_Some (Page.contactForm pg)).
Proof.
  intros Hnb Hty. unfold Page.setup. rewrite Hnb.
  destruct (addNavScrollClass_returns nb y d) as (d' & ->).
  assert (Hdrawer : is_Some (Page.drawer_clicks (Page.sections_1_to_3 pg)) <->
                    is_Some (Page.hamburger pg) /\ is_Some (Page.navMenu pg)).
  { cbn. destruct (Page.hamburger pg), (Page.navMenu pg); split;
      try (intros [? ?]); try (intros [[? ?] [? ?]]); try done; eauto. }
  assert (Hrest : forall tw,
            (is_Some tw <-> is_Some (Page.typedTarget pg)) ->
            exists i,
              (d', Page.sections_5_to_8 pg tw (Page.sections_1_to_3 pg), @None error) =
                (d', i, None) /\
              (is_Some (Page.drawer_clicks i) <->
                 is_Some (Page.hamburger pg) /\ is_Some (Page.navMenu pg)) /\
              (is_Some (Page.typing i) <-> is_Some (Page.typedTarget pg)) /\
              Page.stats_targets i = Page.statElements pg /\
              Page.scroll_back_to_top i = Page.backToTopBtn pg /\
              Page.filter_clicks i = Page.filterButtons pg /\
              (Page.form_submit i = true <-> is_Some (Page.contactForm pg))).
  { intros tw Htw. eexists. split; [reflexivity|].
    split; [exact Hdrawer|]. split; [exact Htw|].
    split; [cbn; destruct (Page.statElements pg); reflexivity|].
    split; [reflexivity|]. split; [reflexivity|]. apply bool_decide_eq_true. }
  destruct (Page.typedTarget pg) as [[markup a]|] eqn:Htt.
  - destruct (Hty markup a eq_refl) as (ws & -> & Hne). cbn [Page.JSON_parse mbind result_bind].
    unfold TypeWriter.construct.
    destruct (currentWord_some (TypeWriter.fresh markup ws 2000 0) Hne) as [w Hw].
    destruct (type_returns _ w Hw) as (tw1 & delay & -> & _).
    destruct (Hrest (Some (tw1, delay))) as (i & Hi); [split; eauto|].
    by exists d', i.
  - destruct (Hrest None) as (i & Hi); [done|].
    by exists d', i.
Qed.

(** * Further properties of the handlers *)

(** ** 1. The mobile drawer *)
Section DrawerFacts.
Import Dom Navbar.

(** What a click on the hamburger leaves of the menu's [open]. *)
Lemma hamburger_click_open (hamburger navMenu : elem) (d : dom) (overflow : string) :
  let after := hamburger_click hamburger navMenu (d, overflow) in
  (("open"%string ∈ classList after.1 navMenu) <-> ("open"%string ∉ classList d navMenu)) /\
  (("active"%string ∈ classList after.1 hamburger) <->
     ("open"%string ∈ classList after.1 navMenu)) /\
  (after.2 = (if bool_decide ("open"%string ∈ classList after.1 navMenu)
              then "hidden"%string else ""%string)).
Proof.
  unfold hamburger_click, toggle, contains. cbn [fst].
  case_bool_decide as Hopen; cbn [fst snd].
  - assert (Hm : "open"%string ∉
              classList (toggle_force hamburger "active" false (remove navMenu "open" d)) navMenu).
    { rewrite elem_of_toggle_force, decide_False by (intros [_ ?]; discriminate).
      rewrite elem_of_remove. naive_solver. }
    split; [naive_solver|]. split.
    + rewrite elem_of_toggle_force, decide_True by done. naive_solver.
    + by rewrite bool_decide_eq_false_2.
  - assert (Hm : "open"%string ∈
              classList (toggle_force hamburger "active" true (add navMenu "open" d)) navMenu).
    { rewrite elem_of_toggle_force, decide_False by (intros [_ ?]; discriminate).
      rewrite elem_of_add. naive_solver. }
    split; [naive_solver|]. split.
    + rewrite elem_of_toggle_force, decide_True by done. naive_solver.
    + by rewrite bool_decide_eq_true_2.
Qed.

Lemma nav_link_click_closed (hamburger navMenu : elem) (d : dom) (overflow : string) :
  ("open"%string ∉ classList (nav_link_click hamburger navMenu (d, overflow)).1 navMenu) /\
  ("active"%string ∉ classList (nav_link_click hamburger navMenu (d, overflow)).1 hamburger).
Proof.
  unfold nav_link_click. cbn [fst]. rewrite !elem_of_remove. naive_solver.
Qed.

End DrawerFacts.

(** A click on the hamburger flips the menu between open and closed, and
    leaves the three flags in step: the hamburger is active, and the
    background scroll locked, exactly when the menu is open. *)
Theorem hamburger_click_in_step
    (hamburger navMenu : Dom.elem) (d : Dom.dom) (overflow : string) :
  (("open"%string ∈
      Dom.classList (Navbar.hamburger_click hamburger navMenu (d, overflow)).1 navMenu)
   <-> ("open"%string ∉ Dom.classList d navMenu)) /\
  (("active"%string ∈
      Dom.classList (Navbar.hamburger_click hamburger navMenu (d, overflow)).1 hamburger)
   <-> ("open"%string ∈
          Dom.classList (Navbar.hamburger_click hamburger navMenu (d, overflow)).1 navMenu)) /\
  ((Navbar.hamburger_click hamburger navMenu (d, overflow)).2 = "hidden"%string
   <-> ("open"%string ∈
          Dom.classList (Navbar.hamburger_click hamburger navMenu (d, overflow)).1 navMenu)) /\
  ((Navbar.hamburger_click hamburger navMenu (d, overflow)).2 = ""%string
   <-> ("open"%string ∉
          Dom.classList (Navbar.hamburger_click hamburger navMenu (d, overflow)).1 navMenu)).
Proof.
  destruct (hamburger_click_open hamburger navMenu d overflow) as (Hflip & Hact & Hov).
  cbv zeta in *. split; [exact Hflip|]. split; [exact Hact|].
  rewrite Hov. case_bool_decide; split; split; try done; try discriminate.
Qed.

(** A click on a menu link closes the drawer whatever state it was in: the
    menu is not open, the hamburger not active, the background scroll free;
    and the next click on the hamburger opens it again and locks the
    scroll. *)
Theorem nav_link_click_closes
    (hamburger navMenu : Dom.elem) (d : Dom.dom) (overflow : string) :
  ("open"%string ∉
     Dom.classList (Navbar.nav_link_click hamburger navMenu (d, overflow)).1 navMenu) /\
  ("active"%string ∉
     Dom.classList (Navbar.nav_link_click hamburger navMenu (d, overflow)).1 hamburger) /\
  (Navbar.nav_link_click hamburger navMenu (d, overflow)).2 = ""%string /\
  ("open"%string ∈
     Dom.classList
       (Navbar.hamburger_click hamburger navMenu
          (Navbar.nav_link_click hamburger navMenu (d, overflow))).1 navMenu) /\
  (Navbar.hamburger_click hamburger navMenu
     (Navbar.nav_link_click hamburger navMenu (d, overflow))).2 = "hidden"%string.
Proof.
  destruct (nav_link_click_closed hamburger navMenu d overflow) as (Hclosed & Hinactive).
  destruct (hamburger_click_open hamburger navMenu
              (Navbar.nav_link_click hamburger navMenu (d, overflow)).1
              (Navbar.nav_link_click hamburger navMenu (d, overflow)).2) as (Hflip & _ & Hov).
  cbv zeta in *. rewrite <- surjective_pairing in Hflip, Hov.
  split; [exact Hclosed|]. split; [exact Hinactive|]. split; [reflexivity|].
  split; [by apply Hflip|].
  rewrite Hov. rewrite bool_decide_eq_true_2; [done | by apply Hflip].
Qed.

(** ** 2. The active nav link *)
Section ActiveSectionFacts.
Import Dom Observers.

(** The section of the last entry of a batch that intersects, if one does. *)
Fixpoint last_intersecting (entries : list entry) : option elem :=
  match entries with
  | [] => None
  | en :: rest =>
      match last_intersecting rest with
      | Some t => Some t
      | None => if isIntersecting en then Some (target en) else None
      end
  end.

Variables (links : list elem) (href : elem -> option string) (id_of : elem -> string).

Lemma active_section_entry_classes (en : entry) (d : dom) e c :
  c ∈ classList (active_section_entry links href id_of en d) e <->
    if isIntersecting en then
      if decide (c = "active"%string /\ e ∈ links)
      then href e = Some ("#" ++ id_of (target en))%string
      else c ∈ classList d e
    else c ∈ classList d e.
Proof.
  unfold active_section_entry. destruct (isIntersecting en); cbn [negb]; [|done].
  etrans; [apply (elem_of_for_each_toggle_force "active"
                    (fun link => bool_decide (href link = Some ("#" ++ id_of (target en))%string)))|].
  case_decide; [apply bool_decide_eq_true | done].
Qed.

Lemma active_section_callback_classes (entries : list entry) : forall (d : dom) e c,
  c ∈ classList (active_section_callback links href id_of entries d) e <->
    match last_intersecting entries with
    | Some t =>
        if decide (c = "active"%string /\ e ∈ links)
        then href e = Some ("#" ++ id_of t)%string
        else c ∈ classList d e
    | None => c ∈ classList d e
    end.
Proof.
  unfold active_section_callback.
  induction entries as [|en rest IH]; intros d e c; cbn [foldl last_intersecting]; [done|].
  etrans; [apply IH|].
  destruct (last_intersecting rest) as [t|].
  - case_decide as Hc; [done|].
    rewrite active_section_entry_classes. destruct (isIntersecting en); [|done].
    by rewrite decide_False.
  - rewrite active_section_entry_classes. by destruct (isIntersecting en).
Qed.

Lemma active_section_callback_idle (entries : list entry) (d : dom) :
  last_intersecting entries = None -> active_section_callback links href id_of entries d = d.
Proof.
  unfold active_section_callback. revert d.
  induction entries as [|en rest IH]; intros d; cbn [foldl last_intersecting]; [done|].
  destruct (last_intersecting rest) as [t|] eqn:Hrest; [discriminate|].
  destruct (isIntersecting en) eqn:Hen; [discriminate|]. intros _.
  unfold active_section_entry at 2. rewrite Hen. cbn [negb]. by apply IH.
Qed.

End ActiveSectionFacts.

(** After a batch of entries of the section observer, the nav links marked
    active are exactly those whose [href] is ["#"] followed by the id of the
    last section reported as intersecting, so any two active links have the
    same [href]; nothing else on the page changes, and a batch in which no
    section intersects changes nothing at all. *)
Theorem active_link_follows_last_section
    (links : list Dom.elem) (href : Dom.elem -> option string) (id_of : Dom.elem -> string)
    (entries : list Observers.entry) (d : Dom.dom) :
  (last_intersecting entries = None ->
     Observers.active_section_callback links href id_of entries d = d) /\
  (forall t, last_intersecting entries = Some t ->
     (forall link, link ∈ links ->
        ("active"%string ∈
           Dom.classList (Observers.active_section_callback links href id_of entries d) link)
        <-> href link = Some ("#" ++ id_of t)%string) /\
     (forall l1 l2, l1 ∈ links -> l2 ∈ links ->
        ("active"%string ∈
           Dom.classList (Observers.active_section_callback links href id_of entries d) l1) ->
        ("active"%string ∈
           Dom.classList (Observers.active_section_callback links href id_of entries d) l2) ->
        href l1 = href l2) /\
     (forall e c, ~ (c = "active"%string /\ e ∈ links) ->
        (c ∈ Dom.classList (Observers.active_section_callback links href id_of entries d) e)
        <-> (c ∈ Dom.classList d e))).
Proof.
  split; [apply active_section_callback_idle|].
  intros t Ht.
  assert (Hlink : forall link, link ∈ links ->
            ("active"%string ∈
               Dom.classList (Observers.active_section_callback links href id_of entries d) link)
            <-> href link = Some ("#" ++ id_of t)%string).
  { intros link Hin. rewrite active_section_callback_classes, Ht. by rewrite decide_True. }
  split; [exact Hlink|]. split.
  - intros l1 l2 H1 H2 Ha1 Ha2. apply Hlink in Ha1, Ha2; [congruence | done | done].
  - intros e c Hc. rewrite active_section_callback_classes, Ht. by rewrite decide_False.
Qed.

(** ** 1, 6. Scrolling, at load and afterwards *)
Section ScrollFacts.
Import Dom Page.

Lemma addNavScrollClass_classes (nb : elem) (y : Number.num) (d : dom) e c :
  c ∈ classList
        match Navbar.addNavScrollClass (Some nb) y d with Ok d' => d' | Throw _ => d end e
  <-> if decide (nb = e /\ c = "scrolled"%string)
      then Number.gtb y (Number.of_Z 50) = true
      else c ∈ classList d e.
Proof.
  unfold Navbar.addNavScrollClass.
  destruct (Number.gtb y (Number.of_Z 50)); rewrite ?elem_of_add, ?elem_of_remove;
    case_decide; naive_solver.
Qed.

Lemma setup_classes (pg : page) (y : Number.num) (d : dom) :
  (setup pg y d).1.1 =
    match Navbar.addNavScrollClass (navbar pg) y d with Ok d' => d' | Throw _ => d end.
Proof.
  unfold setup. destruct (Navbar.addNavScrollClass (navbar pg) y d) as [d1|err]; [|done].
  destruct (typedTarget pg) as [[markup a]|]; [|done].
  by destruct (JSON_parse a ≫= _).
Qed.

(** The class lists an event can change. *)
Definition event_classes (ev : event) : list string :=
  match ev with
  | Scroll _ => ["scrolled"; "visible"]
  | HamburgerClick | NavLinkClick => ["open"; "active"]
  | SectionsIntersect _ => ["active"]
  | RevealIntersect _ => ["revealed"]
  | StatsIntersect _ => []
  | FilterClick _ => ["active"; "hidden"]
  end%string.

End ScrollFacts.


(** A page with every element the script looks for. *)
Definition sample_page : Page.page :=
  {| Page.navbar := Some 0;
     Page.hamburger := Some 1;
     Page.navMenu := Some 2;
     Page.navMenuLinks := [3];
     Page.contentSections := [4];
     Page.navAnchorLinks := [3];
     Page.revealElements := [5];
     Page.typedTarget := Some ([], Page.WordArray [list_ascii_of_string "Developer"]);
     Page.statElements := [6];
     Page.backToTopBtn := Some 7;
     Page.filterButtons := [8];
     Page.projectCards := [9];
     Page.contactForm :=
       Some {| Form.fields := [];
               Form.submitBtn :=
                 Some {| Form.innerHTML := "Send"; Form.background := "";
                         Form.disabled := false |} |};
     Page.href := fun _ => Some "#about"%string;
     Page.id_of := fun _ => "about"%string;
     Page.data_filter := fun _ => Some "all"%string;
     Page.data_category := fun _ => Some "web"%string |}.

Definition sample_state : Page.state :=
  {| Page.classes := {[9 := {["hidden"%string]}]}; Page.overflow := "";
     Page.watched_reveal := {[5]}; Page.watched_stats := {[6]}; Page.counting := [] |}.


(** The load sets the navbar's [scrolled] from the offset the page is
    loaded at, and changes no other class: in particular it does not make
    the back-to-top button visible, however far down the page is loaded. *)
Theorem setup_sets_only_scrolled (pg : Page.page) (scrollY : Number.num) (d : Dom.dom) :
  (forall nb, Page.navbar pg = Some nb ->
     ("scrolled"%string ∈ Dom.classList (Page.setup pg scrollY d).1.1 nb)
     <-> Number.gtb scrollY (Number.of_Z 50) = true) /\
  (forall e c,
     ~ (Page.navbar pg = Some e /\ c = "scrolled"%string) ->
     (c ∈ Dom.classList (Page.setup pg scrollY d).1.1 e) <-> (c ∈ Dom.classList d e)).
Proof.
  rewrite setup_classes. split.
  - intros nb ->. rewrite addNavScrollClass_classes. by rewrite decide_True.
  - intros e c Hne. destruct (Page.navbar pg) as [nb|] eqn:Hnb.
    + rewrite addNavScrollClass_classes. rewrite decide_False; [done|].
      intros [-> ->]. by apply Hne.
    + unfold Navbar.addNavScrollClass. by destruct (Number.gtb scrollY (Number.of_Z 50)).
Qed.

(** An event changes no class but those of its own feature: scrolling only
    [scrolled] and [visible], the drawer only [open] and [active], the
    section observer only [active], the reveal observer only [revealed], the
    filter only [active] and [hidden], the stats observer none. *)
Theorem handle_touches_only
    (pg : Page.page) (ev : Page.event) (s : Page.state) (e : Dom.elem) (c : string) :
  c ∉ event_classes ev ->
  (c ∈ Dom.classList (Page.classes (Page.handle pg ev s)) e)
  <-> (c ∈ Dom.classList (Page.classes s) e).
Proof.
  intros Hc. destruct ev; cbn [Page.handle event_classes] in *.
  - cbn [Page.classes Page.with_classes].
    assert (Hnav : (c ∈ Dom.classList
                      match Navbar.addNavScrollClass (Page.navbar pg) scrollY (Page.classes s) with
                      | Ok d' => d'
                      | Throw _ => Page.classes s
                      end e) <-> (c ∈ Dom.classList (Page.classes s) e)).
    { destruct (Page.navbar pg) as [nb|].
      - rewrite addNavScrollClass_classes. rewrite decide_False; [done|]. set_solver.
      - unfold Navbar.addNavScrollClass. by destruct (Number.gtb scrollY (Number.of_Z 50)). }
    destruct (Page.backToTopBtn pg); [|done].
    unfold BackToTop.scroll. rewrite elem_of_toggle_force. rewrite decide_False; [done|].
    set_solver.
  - destruct (Page.hamburger pg), (Page.navMenu pg); try done.
    unfold Navbar.hamburger_click. cbn [fst Page.classes].
    destruct (Dom.toggle e1 "open" (Page.classes s)) as [d1 isOpen] eqn:Ht.
    cbn [fst Page.classes].
    rewrite elem_of_toggle_force. rewrite decide_False by set_solver.
    replace d1 with (Dom.toggle e1 "open" (Page.classes s)).1 by (by rewrite Ht).
    apply elem_of_toggle. set_solver.
  - destruct (Page.hamburger pg), (Page.navMenu pg); try done.
    unfold Navbar.nav_link_click. cbn [fst Page.classes].
    rewrite !elem_of_remove. set_solver.
  - cbn [Page.classes Page.with_classes]. apply active_section_callback_other. set_solver.
  - cbn [Page.classes fst]. rewrite reveal_callback_classes. set_solver.
  - done.
  - case_bool_decide; [|done]. cbn [Page.classes Page.with_classes].
    rewrite elem_of_filter_click. rewrite !decide_False by set_solver. done.
Qed.

Lemma handle_touches_only_witness :
  ("hidden"%string ∉ event_classes (Page.Scroll (Number.of_Z 300))) /\
  (("hidden"%string ∈
      Dom.classList
        (Page.classes (Page.handle sample_page (Page.Scroll (Number.of_Z 300)) sample_state)) 9)
   <-> ("hidden"%string ∈ Dom.classList (Page.classes sample_state) 9)).
Proof.
  assert (H : "hidden"%string ∉ event_classes (Page.Scroll (Number.of_Z 300)))
    by (cbn; set_solver).
  split; [exact H|].
  exact (handle_touches_only sample_page (Page.Scroll (Number.of_Z 300)) sample_state 9 _ H).
Defined.

(** ** 7. One filter click after another *)

(** The last click decides: after a click on one filter button and then on
    another, every class list is what the second click alone would have
    left.  So a second click on the same button changes nothing. *)
Theorem filter_last_click_wins
    (filterButtons projectCards : list Dom.elem)
    (data_filter data_category : Dom.elem -> option string)
    (b1 b2 : Dom.elem) (d : Dom.dom) (e : Dom.elem) (c : string) :
  b1 ∈ filterButtons ->
  (c ∈ Dom.classList
         (Filter.click filterButtons projectCards data_filter data_category b2
            (Filter.click filterButtons projectCards data_filter data_category b1 d)) e)
  <-> (c ∈ Dom.classList
             (Filter.click filterButtons projectCards data_filter data_category b2 d) e).
Proof.
  intros Hb1. rewrite !(elem_of_filter_click _ _ _ _ b2).
  case_decide; [done|]. case_decide; [done|]. case_decide as Hact; [done|].
  rewrite elem_of_filter_click. rewrite decide_False by done.
  rewrite decide_False by (intros [-> ->]; by apply Hact).
  by rewrite decide_False.
Qed.

Lemma filter_last_click_wins_witness :
  (1 ∈ [1; 2]) /\
  (("hidden"%string ∈
      Dom.classList
        (Filter.click [1; 2] [10; 11]
           (fun b => if decide (b = 1) then Some "web"%string else Some "all"%string)
           (fun c => if decide (c = 10) then Some "web"%string else Some "app"%string) 2
           (Filter.click [1; 2] [10; 11]
              (fun b => if decide (b = 1) then Some "web"%string else Some "all"%string)
              (fun c => if decide (c = 10) then Some "web"%string else Some "app"%string)
              1 ∅)) 11)
   <-> ("hidden"%string ∈
          Dom.classList
            (Filter.click [1; 2] [10; 11]
               (fun b => if decide (b = 1) then Some "web"%string else Some "all"%string)
               (fun c => if decide (c = 10) then Some "web"%string else Some "app"%string)
               2 ∅) 11)).
Proof.
  assert (H : 1 ∈ [1; 2]) by set_solver.
  split; [exact H|].
  exact (filter_last_click_wins [1; 2] [10; 11]
           (fun b => if decide (b = 1) then Some "web"%string else Some "all"%string)
           (fun c => if decide (c = 10) then Some "web"%string else Some "app"%string)
           1 2 ∅ 11 "hidden" H).
Defined.

(** ** 5. Starting the counters *)
Section StatsFacts.
Import Dom Observers Page.

(** The targets of the entries of a batch that intersect, in order. *)
Definition intersecting_targets (entries : list entry) : list elem :=
  map target (filter (fun en => isIntersecting en = true) entries).

Lemma intersecting_targets_cons en entries :
  intersecting_targets (en :: entries) =
    if isIntersecting en then target en :: intersecting_targets entries
    else intersecting_targets entries.
Proof.
  unfold intersecting_targets. rewrite filter_cons.
  destruct (isIntersecting en); case_decide; done.
Qed.

Lemma stats_callback_closed_form entries : forall (s : list elem * gset elem),
  Stats.stats_callback entries s =
    (s.1 ++ intersecting_targets entries, s.2 ∖ list_to_set (intersecting_targets entries)).
Proof.
  unfold Stats.stats_callback.
  induction entries as [|en entries IH]; intros [log watched]; cbn [foldl fst snd].
  - unfold intersecting_targets. cbn. rewrite app_nil_r. f_equal. set_solver.
  - rewrite IH, intersecting_targets_cons. unfold Stats.stats_entry.
    destruct (isIntersecting en); cbn [negb fst snd]; [|done].
    rewrite <- app_assoc. f_equal. cbn [list_to_set]. set_solver.
Qed.

(** What the browser is taken to do: a batch reports a target as
    intersecting at most once, and only while the observer watches it. *)
Definition delivered (s : state) (ev : event) : Prop :=
  match ev with
  | StatsIntersect entries =>
      NoDup (intersecting_targets entries) /\
      forall t, t ∈ intersecting_targets entries -> t ∈ watched_stats s
  | _ => True
  end.

Fixpoint all_delivered (pg : page) (evs : list event) (s : state) : Prop :=
  match evs with
  | [] => True
  | ev :: rest => delivered s ev /\ all_delivered pg rest (handle pg ev s)
  end.

(** No counter runs twice, and none runs on a target still watched. *)
Definition counted_once (s : state) : Prop :=
  NoDup (counting s) /\ forall t, t ∈ counting s -> t ∉ watched_stats s.

Lemma handle_counted_once pg ev s :
  delivered s ev -> counted_once s -> counted_once (handle pg ev s).
Proof.
  intros Hdel [Hnd Hun]. destruct ev; cbn [handle]; try done.
  - destruct (hamburger pg), (navMenu pg); done.
  - destruct (hamburger pg), (navMenu pg); done.
  - destruct Hdel as [Hnd' Hw]. unfold counted_once. cbn [counting watched_stats].
    rewrite stats_callback_closed_form. cbn [fst snd]. split.
    + apply NoDup_app. split; [done|]. split; [|done].
      intros t Ht Ht'. by apply (Hun t Ht), Hw.
    + intros t Ht. apply elem_of_app in Ht as [Ht|Ht]; set_solver.
  - case_bool_decide; done.
Qed.

End StatsFacts.

(** The stats observer calls [countUp] on the targets of the intersecting
    entries of a batch, in their order, and stops watching exactly those;
    the entries that do not intersect change nothing. *)
Theorem stats_callback_starts_intersecting
    (entries : list Observers.entry) (started : list Dom.elem) (watched : gset Dom.elem) :
  (Stats.stats_callback entries (started, watched)).1 =
    started ++ intersecting_targets entries /\
  (forall t, t ∈ (Stats.stats_callback entries (started, watched)).2
             <-> t ∈ watched /\ t ∉ intersecting_targets entries) /\
  (intersecting_targets entries = [] ->
     Stats.stats_callback entries (started, watched) = (started, watched)).
Proof.
  rewrite stats_callback_closed_form. cbn [fst snd]. split; [done|]. split.
  - intros t. set_solver.
  - intros ->. rewrite app_nil_r. f_equal. set_solver.
Qed.

(** As long as the browser reports a target to the stats observer at most
    once per batch and only while it is watched, no element has its
    count-up started twice, whatever other events happen in between. *)
Theorem count_up_starts_once (pg : Page.page) (evs : list Page.event) (s : Page.state) :
  all_delivered pg evs s ->
  Page.counting s = [] ->
  NoDup (Page.counting (Page.handle_all pg evs s)).
Proof.
  intros Hdel Hnone.
  assert (Hinv : counted_once s).
  { split; rewrite Hnone; [constructor | intros t Ht; by apply elem_of_nil in Ht]. }
  clear Hnone. revert s Hdel Hinv.
  induction evs as [|ev evs IH]; intros s Hdel Hinv; [apply Hinv|].
  destruct Hdel as [Hev Hrest]. rewrite handle_all_cons.
  apply IH; [exact Hrest | by apply handle_counted_once].
Qed.

Lemma count_up_starts_once_witness :
  all_delivered sample_page
    [Page.StatsIntersect [{| Observers.target := 6; Observers.isIntersecting := true |}];
     Page.Scroll (Number.of_Z 300)] sample_state /\
  Page.counting sample_state = [] /\
  NoDup
    (Page.counting
       (Page.handle_all sample_page
          [Page.StatsIntersect [{| Observers.target := 6; Observers.isIntersecting := true |}];
           Page.Scroll (Number.of_Z 300)] sample_state)).
Proof.
  assert (H : all_delivered sample_page
            [Page.StatsIntersect [{| Observers.target := 6; Observers.isIntersecting := true |}];
             Page.Scroll (Number.of_Z 300)] sample_state).
  { cbn. repeat split.
    - apply NoDup_singleton.
    - intros t Ht. set_solver. }
  split; [exact H|]. split; [reflexivity|].
  exact (count_up_starts_once sample_page _ sample_state H eq_refl).
Defined.

(** ** 5. What the count-up shows on its way *)
Section CountUpShows.
Import Number CountUp.
Local Open Scope Z_scope.

Lemma shown_after_step (target : num) (suffix : string) (shown : content) (k : nat) :
  (1 <= k <= 60)%nat ->
  shown_after target suffix shown k =
    Shown (if decide (k = 60%nat) then target else value_at target (Z.of_nat k)) suffix.
Proof.
  intros Hk. unfold shown_after. case_decide as H60.
  - subst k. by rewrite run_at_end.
  - rewrite run_before_end by lia. destruct k; [lia | done].
Qed.

Lemma step_as_number (k : nat) : (1 <= k <= 60)%nat -> of_Z (Z.of_nat k) = Fin (Z.of_nat k * one).
Proof. intros Hk. apply of_Z_exact. lia. Qed.

Lemma sixty_as_number : of_Z steps = Fin (60 * one).
Proof. apply of_Z_exact. unfold steps. lia. Qed.

Lemma one_pos : 0 < one.
Proof. unfold one. lia. Qed.

(** [Math.round] of what is not negative is a whole number that is not
    negative, or Infinity. *)
Lemma round_nonneg_whole x :
  nonneg x -> round x = PosInf \/ exists m, round x = Fin (m * one) /\ 0 <= m.
Proof.
  intros Hx. destruct (nonneg_cases x Hx) as [->|(u & -> & Hu)]; [by left|].
  right. cbn [round]. eexists. split; [reflexivity|].
  pose proof one_pos. apply Z.div_pos; [|done].
  assert (0 <= one / 2) by (apply Z.div_pos; lia). lia.
Qed.


(** The value computed at a step towards a whole target that is not
    negative is a whole number between 0 and the target. *)
Lemma value_at_whole (t : Z) (k : nat) :
  0 <= t -> (1 <= k <= 60)%nat ->
  exists v, value_at (Fin (t * one)) (Z.of_nat k) = Fin (v * one) /\ 0 <= v <= t.
Proof.
  intros Ht Hk. pose proof one_pos as Hone.
  unfold value_at. rewrite sixty_as_number, step_as_number by done.
  assert (Hx : nonneg (mul (div (Fin (t * one)) (Fin (60 * one))) (Fin (Z.of_nat k * one)))).
  { assert (Htarget : nonneg (Fin (t * one))).
    { unfold nonneg. cbn. apply Z.leb_le. nia. }
    destruct (nonneg_cases _ (div_nonneg _ (60 * one) Htarget ltac:(lia)))
      as [->|(a & -> & Ha)]; cbn [mul].
    - destruct (Z.eqb_spec (Z.of_nat k * one) 0); [nia|].
      destruct (Z.ltb_spec 0 (Z.of_nat k * one)); [done | nia].
    - rewrite round_ratio_nonneg by nia. apply round_pos_nonneg; [done | nia]. }
  destruct (round_nonneg_whole _ Hx) as [->|(m & -> & Hm)].
  - exists t. split; [done | lia].
  - exists (Z.min m t). cbn [min leb].
    destruct (Z.leb_spec (m * one) (t * one)).
    + rewrite Z.min_l by nia. split; [done | nia].
    + rewrite Z.min_r by nia. split; [done | lia].
Qed.

Lemma rne_error n d : 0 < d -> - d <= 2 * (rne n d * d - n) <= d.
Proof.
  intros Hd. unfold rne.
  pose proof (Z.div_mod n d ltac:(lia)) as E.
  pose proof (Z.mod_pos_bound n d Hd) as B.
  destruct (Z.compare_spec (2 * (n mod d)) d); [destruct (Z.even (n / d))|..]; nia.
Qed.

(** A value with at least 53 bits is rounded with a relative error of at
    most 2^-53. *)
Lemma round_pos_relative n d :
  0 < d -> d * 2 ^ 53 <= n -> 2 * n < overflow * d ->
  exists r, round_pos n d = Fin r /\ - n <= 2 ^ 53 * (r * d - n) <= n.
Proof.
  intros Hd Hn Hov. unfold round_pos.
  set (e := ulp_exp n d).
  assert (He : 0 < e).
  { unfold e, ulp_exp.
    assert (2 ^ 53 <= n / d) by (apply Z.div_le_lower_bound; lia).
    assert (53 <= Z.log2 (n / d)) by (apply Z.log2_le_pow2; lia).
    lia. }
  pose proof (ulp_exp_lower n d Hd ltac:(lia) He) as Hlow. fold e in Hlow.
  assert (Hp : 0 < 2 ^ e) by (apply Z.pow_pos_nonneg; lia).
  assert (HD : 0 < d * 2 ^ e) by nia.
  pose proof (rne_error n (d * 2 ^ e) HD) as Herr.
  set (q := rne n (d * 2 ^ e)) in *.
  assert (Hrel : - n <= 2 ^ 53 * (q * 2 ^ e * d - n) <= n).
  { replace (q * 2 ^ e * d) with (q * (d * 2 ^ e)) by ring.
    change (2 ^ 53) with (2 * 2 ^ 52). lia. }
  exists (q * 2 ^ e). split; [|exact Hrel].
  destruct (Z.ltb_spec (q * 2 ^ e) overflow); [done|].
  exfalso. assert (q * 2 ^ e * d <= 2 * n) by lia. nia.
Qed.

Lemma one_even : one = 2 * (one / 2).
Proof. reflexivity. Qed.

Lemma one_large : 2 ^ 60 <= one.
Proof. unfold one. apply Z.pow_le_mono_r; lia. Qed.

Lemma overflow_large : 2 ^ 60 * one <= overflow.
Proof.
  unfold one, overflow. rewrite <- Z.pow_add_r by lia. apply Z.pow_le_mono_r; lia.
Qed.

(** The two roundings of [(t / 60) * k] stay within [1 / 60] of
    [t * k / 60]. *)
Lemma roundings_close t k :
  1 <= t < 2 ^ 45 -> 1 <= k <= 60 ->
  exists x1 x2,
    round_pos (t * one * one) (60 * one) = Fin x1 /\ 0 < x1 /\
    round_pos (x1 * (k * one)) one = Fin x2 /\
    - one < 60 * x2 - t * k * one < one.
Proof.
  intros Ht Hk.
  pose proof one_large as Hbig. pose proof overflow_large as Hov. pose proof one_pos as Hpos.
  destruct (round_pos_relative (t * one * one) (60 * one)) as (x1 & Hr1 & Hx1); [lia|nia|nia|].
  assert (HA : - (t * one) <= 2 ^ 53 * (60 * x1 - t * one) <= t * one) by nia.
  assert (Hx1lo : 2 ^ 53 <= x1) by nia.
  assert (Hx1hi : 60 * x1 <= 2 * (t * one)) by nia.
  destruct (round_pos_relative (x1 * (k * one)) one) as (x2 & Hr2 & Hx2); [lia|nia|nia|].
  assert (HB : - (x1 * k) <= 2 ^ 53 * (x2 - x1 * k) <= x1 * k) by nia.
  exists x1, x2. split; [done|]. split; [lia|]. split; [done|].
  assert (Htk : t * k < 2 ^ 51) by nia.
  assert (H1 : 2 ^ 53 * (60 * x2 - t * k * one) =
               60 * (2 ^ 53 * (x2 - x1 * k)) + k * (2 ^ 53 * (60 * x1 - t * one))) by ring.
  assert (H2 : 60 * (x1 * k) <= 2 * (t * k * one)) by nia.
  assert (H3 : k * (t * one) = t * k * one) by ring.
  assert (H4 : 3 * (t * k * one) < 2 ^ 53 * one) by nia.
  nia.
Qed.

Lemma product_close t k :
  1 <= t < 2 ^ 45 -> 1 <= k <= 60 ->
  exists x2,
    mul (div (Fin (t * one)) (Fin (60 * one))) (Fin (k * one)) = Fin x2 /\
    - one < 60 * x2 - t * k * one < one.
Proof.
  intros Ht Hk. pose proof one_pos as Hpos.
  destruct (roundings_close t k Ht Hk) as (x1 & x2 & Hr1 & Hx1 & Hr2 & Hclose).
  exists x2. split; [|done].
  cbn [div]. destruct (Z.eqb_spec (60 * one) 0) as [|_]; [lia|].
  rewrite Z.sgn_pos, Z.abs_eq, Z.mul_1_l by lia.
  rewrite round_ratio_nonneg, Hr1 by nia. cbn [mul].
  by rewrite round_ratio_nonneg, Hr2 by nia.
Qed.

(** For a negative target the product is the negative of the product for
    its absolute value. *)
Lemma product_close_negative t k :
  1 <= t < 2 ^ 45 -> 1 <= k <= 60 ->
  exists x2,
    mul (div (Fin (- t * one)) (Fin (60 * one))) (Fin (k * one)) = Fin (- x2) /\
    - one < 60 * x2 - t * k * one < one.
Proof.
  intros Ht Hk. pose proof one_pos as Hpos.
  destruct (roundings_close t k Ht Hk) as (x1 & x2 & Hr1 & Hx1 & Hr2 & Hclose).
  exists x2. split; [|done].
  cbn [div]. destruct (Z.eqb_spec (60 * one) 0) as [|_]; [lia|].
  rewrite Z.sgn_pos, Z.abs_eq, Z.mul_1_l by lia.
  unfold round_ratio. destruct (Z.ltb_spec (- t * one * one) 0); [|nia].
  replace (- (- t * one * one)) with (t * one * one) by ring.
  rewrite Hr1. cbn [neg mul]. unfold round_ratio.
  destruct (Z.ltb_spec (- x1 * (k * one)) 0); [|nia].
  replace (- (- x1 * (k * one))) with (x1 * (k * one)) by ring.
  by rewrite Hr2.
Qed.

(** With [Math.round] after them, within one half. *)
Lemma value_at_close t k :
  1 <= t < 2 ^ 45 -> 1 <= k <= 60 ->
  exists m,
    round (mul (div (Fin (t * one)) (Fin (60 * one))) (Fin (k * one))) = Fin (m * one) /\
    -30 <= 60 * m - t * k <= 30.
Proof.
  intros Ht Hk. destruct (product_close t k Ht Hk) as (x2 & -> & Hclose).
  pose proof one_even as Heven. pose proof one_pos as Hpos.
  cbn [round]. set (m := (x2 + one / 2) / one).
  exists m. split; [done|].
  pose proof (Z.div_mod (x2 + one / 2) one ltac:(lia)) as E.
  pose proof (Z.mod_pos_bound (x2 + one / 2) one Hpos) as B. fold m in E.
  set (h := one / 2) in *.
  split; nia.
Qed.

End CountUpShows.

(** For a target that is a whole number and not negative, every one of the
    60 steps shows a whole number between 0 and the target: no fraction is
    ever displayed. *)
Theorem countUp_shows_whole_numbers
    (t : Z) (suffix : string) (shown : CountUp.content) (k : nat) :
  (0 <= t)%Z -> (1 <= k <= 60)%nat ->
  exists v : Z,
    CountUp.shown_after (Number.Fin (t * Number.one)) suffix shown k =
      CountUp.Shown (Number.Fin (v * Number.one)) suffix /\
    (0 <= v <= t)%Z.
Proof.
  intros Ht Hk. rewrite shown_after_step by done.
  case_decide; [exists t; split; [done | lia]|].
  destruct (value_at_whole t k Ht Hk) as (v & -> & Hv). by exists v.
Qed.

Lemma countUp_shows_whole_numbers_witness :
  (0 <= 7)%Z /\ (1 <= 30 <= 60)%nat /\
  exists v : Z,
    CountUp.shown_after (Number.Fin (7 * Number.one)) "+" CountUp.Markup 30 =
      CountUp.Shown (Number.Fin (v * Number.one)) "+" /\
    (0 <= v <= 7)%Z.
Proof.
  assert (H1 : (0 <= 7)%Z) by lia. assert (H2 : (1 <= 30 <= 60)%nat) by lia.
  split; [exact H1|]. split; [exact H2|].
  exact (countUp_shows_whole_numbers 7 "+" CountUp.Markup 30 H1 H2).
Defined.

(** A target that is no finite number (NaN when [data-count] holds no
    number, or an infinity) is shown as it is at every step: nothing
    counts up. *)
Theorem countUp_shows_non_finite_target
    (target : Number.num) (suffix : string) (shown : CountUp.content) (k : nat) :
  (forall u, target <> Number.Fin u) -> (1 <= k <= 60)%nat ->
  CountUp.shown_after target suffix shown k = CountUp.Shown target suffix.
Proof.
  intros Hnf Hk. rewrite shown_after_step by done.
  case_decide; [done|]. f_equal.
  unfold value_at. rewrite sixty_as_number, step_as_number by done.
  pose proof one_pos as Hone.
  destruct target as [| |u|]; [done| | by destruct (Hnf u) |]; cbn [Number.div].
  - destruct (Z.leb_spec 0 (60 * Number.one)); [|lia]. cbn [Number.mul].
    destruct (Z.eqb_spec (Z.of_nat k * Number.one) 0); [nia|].
    destruct (Z.ltb_spec 0 (Z.of_nat k * Number.one)); [done | nia].
  - destruct (Z.leb_spec 0 (60 * Number.one)); [|lia]. cbn [Number.mul].
    destruct (Z.eqb_spec (Z.of_nat k * Number.one) 0); [nia|].
    destruct (Z.ltb_spec 0 (Z.of_nat k * Number.one)); [done | nia].
Qed.

Lemma countUp_shows_non_finite_target_witness :
  (forall u, Number.NaN <> Number.Fin u) /\ (1 <= 30 <= 60)%nat /\
  CountUp.shown_after Number.NaN "%" CountUp.Markup 30 = CountUp.Shown Number.NaN "%".
Proof.
  assert (H1 : forall u, Number.NaN <> Number.Fin u) by discriminate.
  assert (H2 : (1 <= 30 <= 60)%nat) by lia.
  split; [exact H1|]. split; [exact H2|].
  exact (countUp_shows_non_finite_target Number.NaN "%" CountUp.Markup 30 H1 H2).
Defined.

(** The display follows the straight line from 0 to the target: for a whole
    target below 2^45, the number shown at step [k] is within one half of
    [target * k / 60], for all the error of the two floating-point
    operations and of [Math.round]. *)
Theorem countUp_tracks_the_line
    (t : Z) (suffix : string) (shown : CountUp.content) (k : nat) :
  (0 <= t < 2 ^ 45)%Z -> (1 <= k <= 60)%nat ->
  exists v : Z,
    CountUp.shown_after (Number.Fin (t * Number.one)) suffix shown k =
      CountUp.Shown (Number.Fin (v * Number.one)) suffix /\
    (-30 <= 60 * v - t * Z.of_nat k <= 30)%Z.
Proof.
  intros Ht Hk. rewrite shown_after_step by done.
  case_decide as H60; [exists t; split; [done | subst k; lia]|].
  destruct (decide (t = 0%Z)) as [->|Hpos].
  - destruct (value_at_whole 0%Z k ltac:(lia) Hk) as (v & -> & Hv).
    exists v. split; [done | lia].
  - unfold value_at. rewrite sixty_as_number, step_as_number by done.
    destruct (value_at_close t (Z.of_nat k) ltac:(lia) ltac:(lia)) as (m & -> & Hm).
    pose proof one_pos as Hone.
    exists (Z.min m t). cbn [Number.min Number.leb].
    destruct (Z.leb_spec (m * Number.one) (t * Number.one)).
    + rewrite Z.min_l by nia. split; [done | lia].
    + rewrite Z.min_r by nia. split; [done | nia].
Qed.

Lemma countUp_tracks_the_line_witness :
  (0 <= 150 < 2 ^ 45)%Z /\ (1 <= 30 <= 60)%nat /\
  exists v : Z,
    CountUp.shown_after (Number.Fin (150 * Number.one)) "+" CountUp.Markup 30 =
      CountUp.Shown (Number.Fin (v * Number.one)) "+" /\
    (-30 <= 60 * v - 150 * Z.of_nat 30 <= 30)%Z.
Proof.
  assert (H1 : (0 <= 150 < 2 ^ 45)%Z) by lia. assert (H2 : (1 <= 30 <= 60)%nat) by lia.
  split; [exact H1|]. split; [exact H2|].
  exact (countUp_tracks_the_line 150 "+" CountUp.Markup 30 H1 H2).
Defined.

(** A negative whole target (above -2^45) does not count at all: every step
    shows the target itself, because the rounded product is never below it
    and [Math.min] takes the target. *)
Theorem countUp_shows_negative_target_at_once
    (t : Z) (suffix : string) (shown : CountUp.content) (k : nat) :
  (- 2 ^ 45 < t < 0)%Z -> (1 <= k <= 60)%nat ->
  CountUp.shown_after (Number.Fin (t * Number.one)) suffix shown k =
    CountUp.Shown (Number.Fin (t * Number.one)) suffix.
Proof.
  intros Ht Hk. rewrite shown_after_step by done.
  case_decide as H60; [done|]. f_equal.
  unfold value_at. rewrite sixty_as_number, step_as_number by done.
  assert (Hp : exists p, t = (- p)%Z /\ (1 <= p < 2 ^ 45)%Z) by (exists (- t)%Z; lia).
  destruct Hp as (p & -> & Hp).
  destruct (product_close_negative p (Z.of_nat k) Hp ltac:(lia)) as (x2 & -> & Hclose).
  pose proof one_pos as Hone. pose proof one_even as Heven.
  cbn [Number.round Number.min Number.leb].
  set (m := ((- x2 + Number.one / 2) / Number.one)%Z).
  assert (Hk59 : (Z.of_nat k <= 59)%Z) by lia.
  assert (H1 : (p * Z.of_nat k * Number.one <= 59 * (p * Number.one))%Z) by nia.
  assert (H2 : (Number.one <= p * Number.one)%Z) by nia.
  assert (Hm : (- p <= m)%Z).
  { apply Z.div_le_lower_bound; [done|]. set (h := (Number.one / 2)%Z) in *. lia. }
  destruct (Z.leb_spec (m * Number.one) (- p * Number.one)); [|done].
  f_equal. nia.
Qed.

Lemma countUp_shows_negative_target_at_once_witness :
  (- 2 ^ 45 < -5 < 0)%Z /\ (1 <= 30 <= 60)%nat /\
  CountUp.shown_after (Number.Fin (-5 * Number.one)) "" CountUp.Markup 30 =
    CountUp.Shown (Number.Fin (-5 * Number.one)) "".
Proof.
  assert (H1 : (- 2 ^ 45 < -5 < 0)%Z) by lia. assert (H2 : (1 <= 30 <= 60)%nat) by lia.
  split; [exact H1|]. split; [exact H2|].
  exact (countUp_shows_negative_target_at_once (-5) "" CountUp.Markup 30 H1 H2).
Defined.

(** ** 4. The rhythm of the typing effect *)
Section TypingRhythm.
Import TypeWriter.

(** The time a log takes: the sum of its delays. *)
Definition total_delay (log : list (jsstring * Z)) : Z :=
  foldr Z.add 0%Z (map snd log).

Lemma total_delay_app l1 l2 : total_delay (l1 ++ l2) = (total_delay l1 + total_delay l2)%Z.
Proof.
  unfold total_delay. induction l1 as [|p l1 IH]; cbn [app map foldr]; [lia|].
  rewrite IH. lia.
Qed.

Lemma total_delay_constant (w : jsstring) (delay : Z) (ks : list nat) :
  total_delay (map (fun m => (take m w, delay)) ks) = (delay * Z.of_nat (length ks))%Z.
Proof.
  unfold total_delay. induction ks as [|k ks IH]; cbn [map foldr length snd]; [lia|].
  rewrite IH. lia.
Qed.

(** The same effect one round of the word list later. *)
Definition next_round (tw : t) : t :=
  {| textContent := textContent tw; words := words tw; waitTime := waitTime tw;
     wordIndex := wordIndex tw + length (words tw); text := text tw;
     isDeleting := isDeleting tw |}.

Definition log_of (r : result (list (jsstring * Z) * t)) : option (list (jsstring * Z)) :=
  match r with
  | Ok (log, _) => Some log
  | Throw _ => None
  end.

Lemma rem_next_round (i len : nat) : rem (i + len) len = rem i len.
Proof.
  unfold rem. destruct (Nat.eqb_spec len 0) as [|Hlen]; [done|].
  f_equal. replace (i + len)%nat with (i + 1 * len)%nat by lia. apply Nat.Div0.mod_add.
Qed.

Lemma type_next_round (tw : t) :
  type (next_round tw) =
    match type tw with
    | Ok (tw1, delay) => Ok (next_round tw1, delay)
    | Throw e => Throw e
    end.
Proof.
  unfold type, next_round. cbn [words wordIndex text isDeleting waitTime].
  rewrite rem_next_round.
  destruct (index (words tw) (rem (wordIndex tw) (length (words tw)))) as [w|]; [|done].
  destruct (isDeleting tw); cbn [negb andb]; repeat case_bool_decide; done.
Qed.

Lemma steps_next_round (n : nat) : forall tw,
  steps n (next_round tw) =
    match steps n tw with
    | Ok (log, tw1) => Ok (log, next_round tw1)
    | Throw e => Throw e
    end.
Proof.
  induction n as [|n IH]; intros tw; cbn [steps]; [done|].
  rewrite type_next_round. destruct (type tw) as [[tw1 delay]|e]; [|done].
  rewrite IH. by destruct (steps n tw1) as [[log tw2]|e].
Qed.

End TypingRhythm.

(** A word of [L >= 1] characters takes [2 * L] calls of [type()] and
    [150 * (L - 1) + waitTime + 400] milliseconds from its first character
    to the start of the next word. *)
Theorem typing_word_duration
    (ws : list TypeWriter.jsstring) (wait : Z) (shown w : TypeWriter.jsstring) (i : nat) :
  ws !! (i mod length ws)%nat = Some w ->
  (1 <= length w)%nat ->
  exists log,
    TypeWriter.steps (2 * length w) (TypeWriter.fresh shown ws wait i) =
      Ok (log, TypeWriter.fresh [] ws wait (S i)) /\
    length log = (2 * length w)%nat /\
    total_delay log = (150 * (Z.of_nat (length w) - 1) + wait + 400)%Z.
Proof.
  intros Hw HL.
  assert (Hne : ws <> []) by (intros ->; done).
  assert (Hcw : TypeWriter.index ws (TypeWriter.rem i (length ws)) = Some w).
  { pose proof (currentWord_lookup (TypeWriter.fresh shown ws wait i) Hne) as E.
    unfold TypeWriter.currentWord in E. cbn in E. by rewrite E. }
  exists (word_log wait w). split; [|split].
  - replace (2 * length w)%nat with ((length w - 1) + 1 + (length w - 1) + 1)%nat by lia.
    exact (word_cycle ws wait i w Hcw shown).
  - unfold word_log. rewrite !length_app, !length_map, length_rev, length_seq. cbn. lia.
  - unfold word_log. rewrite !total_delay_app, !total_delay_constant.
    rewrite length_rev, length_seq. unfold total_delay. cbn. lia.
Qed.

Lemma typing_word_duration_witness :
  [list_ascii_of_string "Hi"] !! (0 mod length [list_ascii_of_string "Hi"])%nat =
    Some (list_ascii_of_string "Hi") /\
  (1 <= length (list_ascii_of_string "Hi"))%nat /\
  exists log,
    TypeWriter.steps (2 * length (list_ascii_of_string "Hi"))
      (TypeWriter.fresh [] [list_ascii_of_string "Hi"] 2000 0) =
      Ok (log, TypeWriter.fresh [] [list_ascii_of_string "Hi"] 2000 1) /\
    length log = (2 * length (list_ascii_of_string "Hi"))%nat /\
    total_delay log = (150 * (Z.of_nat (length (list_ascii_of_string "Hi")) - 1) + 2000 + 400)%Z.
Proof.
  assert (H1 : [list_ascii_of_string "Hi"] !! (0 mod length [list_ascii_of_string "Hi"])%nat =
               Some (list_ascii_of_string "Hi")) by reflexivity.
  assert (H2 : (1 <= length (list_ascii_of_string "Hi"))%nat) by (cbn; lia).
  split; [exact H1|]. split; [exact H2|].
  exact (typing_word_duration [list_ascii_of_string "Hi"] 2000 [] (list_ascii_of_string "Hi") 0
           H1 H2).
Defined.

(** What the effect types depends on [wordIndex] only through
    [wordIndex % words.length]: started one round of the list later, it
    leaves the same texts with the same delays, call by call, and throws
    exactly when the other does. *)
Theorem typing_repeats_every_round
    (ws : list TypeWriter.jsstring) (wait : Z) (shown : TypeWriter.jsstring) (i n : nat) :
  log_of (TypeWriter.steps n (TypeWriter.fresh shown ws wait (i + length ws))) =
    log_of (TypeWriter.steps n (TypeWriter.fresh shown ws wait i)).
Proof.
  change (TypeWriter.fresh shown ws wait (i + length ws))
    with (next_round (TypeWriter.fresh shown ws wait i)).
  rewrite steps_next_round.
  by destruct (TypeWriter.steps n (TypeWriter.fresh shown ws wait i)) as [[log tw]|e].
Qed.

(** ** Loading the page, feature by feature *)


(** A word list that does not parse, or is empty, ends the load in the
    middle: the scroll effect, the drawer and the two observers before the
    typing effect are installed, while the counters, the back-to-top button,
    the filter and the form after it get no listener at all. *)
Theorem setup_stops_at_bad_words
    (pg : Page.page) (nb : Dom.elem) (markup : TypeWriter.jsstring) (a : Page.data_words)
    (scrollY : Number.num) (d : Dom.dom) :
  Page.navbar pg = Some nb ->
  Page.typedTarget pg = Some (markup, a) ->
  a = Page.Unparsable \/ a = Page.WordArray [] ->
  exists d' i err,
    Page.setup pg scrollY d = (d', i, Some err) /\
    err = (if a is Page.Unparsable then SyntaxError else TypeError) /\
    Page.scroll_navbar i = true /\
    Page.section_targets i = Page.contentSections pg /\
    Page.reveal_targets i = Page.revealElements pg /\
    Page.typing i = None /\
    Page.stats_targets i = [] /\
    Page.scroll_back_to_top i = None /\
    Page.filter_clicks i = [] /\
    Page.form_submit i = false.
Proof.
  intros Hnb Htt Ha. unfold Page.setup. rewrite Hnb, Htt.
  destruct (addNavScrollClass_returns nb scrollY d) as (d' & ->).
  destruct Ha as [-> | ->]; eexists d', _, _; (split; [reflexivity|]); by repeat split.
Qed.

(** A page whose typing target carries the empty list. *)
Definition page_with_empty_words : Page.page :=
  {| Page.navbar := Some 0; Page.hamburger := None; Page.navMenu := None;
     Page.navMenuLinks := []; Page.contentSections := [4]; Page.navAnchorLinks := [];
     Page.revealElements := [5]; Page.typedTarget := Some ([], Page.WordArray []);
     Page.statElements := [6]; Page.backToTopBtn := Some 7; Page.filterButtons := [8];
     Page.projectCards := [9]; Page.contactForm := None; Page.href := fun _ => None;
     Page.id_of := fun _ => ""%string; Page.data_filter := fun _ => None;
     Page.data_category := fun _ => None |}.

Lemma setup_stops_at_bad_words_witness :
  Page.navbar page_with_empty_words = Some 0 /\
  Page.typedTarget page_with_empty_words = Some ([], Page.WordArray []) /\
  (Page.WordArray [] = Page.Unparsable \/ Page.WordArray [] = Page.WordArray []) /\
  exists d' i err,
    Page.setup page_with_empty_words Number.zero ∅ = (d', i, Some err) /\
    Page.filter_clicks i = [].
Proof.
  split; [reflexivity|]. split; [reflexivity|].
  assert (H : Page.WordArray [] = Page.Unparsable \/ Page.WordArray [] = Page.WordArray [])
    by (by right).
  split; [exact H|].
  destruct (setup_stops_at_bad_words page_with_empty_words 0 [] (Page.WordArray [])
              Number.zero ∅ eq_refl eq_refl H)
    as (d' & i & err & Hs & _ & _ & _ & _ & _ & _ & _ & Hf & _).
  exists d', i, err. split; [exact Hs | exact Hf].
Defined.

Lemma setup_guards_witness :
  Page.navbar sample_page = Some 0 /\
  (forall markup a, Page.typedTarget sample_page = Some (markup, a) ->
     exists ws, a = Page.WordArray ws /\ ws <> []) /\
  exists d' i,
    Page.setup sample_page Number.zero ∅ = (d', i, None) /\
    Page.filter_clicks i = Page.filterButtons sample_page.
Proof.
  assert (H : forall markup a, Page.typedTarget sample_page = Some (markup, a) ->
                exists ws, a = Page.WordArray ws /\ ws <> []).
  { intros markup a Ha. injection Ha as <- <-. eexists. split; [reflexivity | discriminate]. }
  split; [reflexivity|]. split; [exact H|].
  destruct (setup_guards sample_page 0 Number.zero ∅ eq_refl H)
    as (d' & i & Hs & _ & _ & _ & _ & Hf & _).
  exists d', i. split; [exact Hs | exact Hf].
Defined.

(** Once loaded, the typing target shows the first character of the first
    word (the whole word if it has at most one), the effect is at word 0,
    and the next call of [type()] is due after 100ms (after the 2000ms pause
    if the word is already complete). *)
Theorem setup_types_first_character
    (pg : Page.page) (nb : Dom.elem) (markup w : TypeWriter.jsstring)
    (rest : list TypeWriter.jsstring) (scrollY : Number.num) (d : Dom.dom) :
  Page.navbar pg = Some nb ->
  Page.typedTarget pg = Some (markup, Page.WordArray (w :: rest)) ->
  exists d' i tw delay,
    Page.setup pg scrollY d = (d', i, None) /\
    Page.typing i = Some (tw, delay) /\
    TypeWriter.textContent tw = take 1 w /\
    TypeWriter.wordIndex tw = O /\
    delay = (if decide (length w <= 1)%nat then 2000%Z else 100%Z).
Proof.
  intros Hnb Htt. unfold Page.setup. rewrite Hnb, Htt.
  destruct (addNavScrollClass_returns nb scrollY d) as (d' & ->).
  cbn [Page.JSON_parse mbind result_bind]. unfold TypeWriter.construct.
  assert (Hw : TypeWriter.index (w :: rest) (TypeWriter.rem 0 (length (w :: rest))) = Some w).
  { unfold TypeWriter.rem. cbn [length Nat.eqb]. by rewrite Nat.Div0.mod_0_l. }
  change (TypeWriter.fresh markup (w :: rest) 2000 0)
    with (working (w :: rest) 2000 markup (take 0 w) false 0).
  case_decide as HL.
  - assert (E : (length w - 1)%nat = O) by lia.
    replace (working (w :: rest) 2000 markup (take 0 w) false 0)
      with (working (w :: rest) 2000 markup (take (length w - 1) w) false 0)
      by (by rewrite E).
    rewrite (type_complete (w :: rest) 2000 0 w Hw markup).
    eexists d', _, _, _. split; [reflexivity|].
    cbn [Page.typing Page.sections_5_to_8 TypeWriter.textContent TypeWriter.wordIndex working].
    split; [reflexivity|]. split; [symmetry; by apply take_ge|]. done.
  - rewrite (type_forward (w :: rest) 2000 0 w Hw markup 0) by lia.
    eexists d', _, _, _. split; [reflexivity|]. by cbn.
Qed.

Lemma setup_types_first_character_witness :
  Page.navbar sample_page = Some 0 /\
  Page.typedTarget sample_page =
    Some ([], Page.WordArray (list_ascii_of_string "Developer" :: [])) /\
  exists d' i tw delay,
    Page.setup sample_page Number.zero ∅ = (d', i, None) /\
    Page.typing i = Some (tw, delay) /\
    TypeWriter.textContent tw = take 1 (list_ascii_of_string "Developer").
Proof.
  split; [reflexivity|]. split; [reflexivity|].
  destruct (setup_types_first_character sample_page 0 [] (list_ascii_of_string "Developer") []
              Number.zero ∅ eq_refl eq_refl) as (d' & i & tw & delay & Hs & Ht & Htc & _).
  exists d', i, tw, delay. split; [exact Hs|]. split; [exact Ht | exact Htc].
Defined.

(** ** 8. A second submission on top of the first *)

(** The handler reads the label to restore from the button as it is.  If a
    second submit event is handled while the first is still pending, the
    label it saves is the sent label, and once both timeouts have run that is
    the label the button keeps: the original one is lost.  Disabling the
    button is what keeps a user from getting there. *)
Theorem second_submission_keeps_sent_label (s0 : Form.state) (b : Form.button) (dt : Z) :
  Form.submitBtn (Form.contactForm s0) = Some b ->
  Form.timeouts s0 = [] ->
  (0 <= dt < 2500)%Z ->
  exists s1 s2,
    Form.submit s0 = (true, Ok s1) /\
    Form.submit (Form.advance dt s1) = (true, Ok s2) /\
    forall dt', (2500 <= dt')%Z ->
      Form.submitBtn (Form.contactForm (Form.advance dt' s2)) =
        Some {| Form.innerHTML := Form.sent_label; Form.background := "";
                Form.disabled := false |}.
Proof.
  intros Hb Ht Hdt. destruct s0 as [t0 [fs sb] ts]. cbn in Hb, Ht. subst sb ts.
  set (f1 := {| Form.fields := fs;
                Form.submitBtn :=
                  Some {| Form.innerHTML := Form.sent_label;
                          Form.background := Form.sent_background;
                          Form.disabled := true |} |}).
  exists {| Form.now := t0; Form.contactForm := f1;
            Form.timeouts := [((t0 + 2500)%Z, Form.Restore (Form.innerHTML b))] |}.
  exists {| Form.now := (t0 + dt)%Z; Form.contactForm := f1;
            Form.timeouts := [((t0 + 2500)%Z, Form.Restore (Form.innerHTML b))]
                             ++ [((t0 + dt + 2500)%Z, Form.Restore Form.sent_label)] |}.
  split; [reflexivity|]. split.
  - rewrite advance_before_due by lia. reflexivity.
  - intros dt' Hdt'. rewrite advance_when_due by lia.
    rewrite restored by (by eexists). reflexivity.
Qed.

Lemma second_submission_keeps_sent_label_witness :
  Form.submitBtn (Form.contactForm styled_form) =
    Some {| Form.innerHTML := "Send"; Form.background := "red"; Form.disabled := false |} /\
  Form.timeouts styled_form = [] /\
  (0 <= 1000 < 2500)%Z /\
  exists s1 s2,
    Form.submit styled_form = (true, Ok s1) /\
    Form.submit (Form.advance 1000 s1) = (true, Ok s2) /\
    Form.submitBtn (Form.contactForm (Form.advance 2500 s2)) =
      Some {| Form.innerHTML := Form.sent_label; Form.background := "";
              Form.disabled := false |}.
Proof.
  assert (H : (0 <= 1000 < 2500)%Z) by lia.
  split; [reflexivity|]. split; [reflexivity|]. split; [exact H|].
  destruct (second_submission_keeps_sent_label styled_form
              {| Form.innerHTML := "Send"; Form.background := "red"; Form.disabled := false |}
              1000 eq_refl eq_refl H) as (s1 & s2 & H1 & H2 & H3).
  exists s1, s2. split; [exact H1|]. split; [exact H2|]. apply H3. lia.
Defined.

(** ** 3. What a batch of the reveal observer changes *)

(** The reveal callback adds [revealed] to the targets reported as
    intersecting and stops watching exactly those; every other class of
    every element, and every other target, is left as it was, so that a
    batch without an intersecting entry changes nothing. *)
Theorem reveal_callback_marks_intersecting
    (entries : list Observers.entry) (d : Dom.dom) (watched : gset Dom.elem) :
  (forall e c,
     (c ∈ Dom.classList (Observers.reveal_callback entries (d, watched)).1 e)
     <-> (c = "revealed"%string /\ intersects entries e) \/ (c ∈ Dom.classList d e)) /\
  (forall e,
     e ∈ (Observers.reveal_callback entries (d, watched)).2
     <-> e ∈ watched /\ ~ intersects entries e) /\
  ((forall e, ~ intersects entries e) ->
     Observers.reveal_callback entries (d, watched) = (d, watched)).
Proof.
  split; [|split].
  - intros e c. apply reveal_callback_classes.
  - intros e. apply reveal_callback_watched.
  - unfold Observers.reveal_callback.
    induction entries as [|en entries IH]; intros Hnone; cbn [foldl]; [done|].
    assert (Hen : Observers.isIntersecting en = false).
    { destruct (Observers.isIntersecting en) eqn:Hi; [|done].
      destruct (Hnone (Observers.target en)). apply intersects_cons. by left. }
    unfold Observers.reveal_entry at 2. rewrite Hen. cbn [negb].
    apply IH. intros e He. apply (Hnone e), intersects_cons. by right.
Qed.
